(** * Token parser of luxon (src/impl/tokenParser.js)

    A shallow embedding of the format-driven date/time parser: the
    compilation of format tokens into match units, the assembly of the
    anchored pattern, the distribution of the captured groups and the
    resolution of the raw values into calendar fields.

    The JavaScript runtime pieces the source relies on (strings, [parseInt],
    [RegExp] with its backtracking matcher and capture groups, objects with
    insertion-ordered keys) are embedded first.

    A string is the sequence of its UTF-16 code units, and the embedding
    covers the code units below 256, the Basic Latin and Latin-1
    Supplement blocks, one [ascii] each: the letter u with circumflex,
    U+00FB, is the one character ["251"%char] (not the two bytes of its
    UTF-8 form), and the French month name of August is
    the four characters [a], [o], ["251"%char], [t].  A string with a
    higher code unit is outside the embedding.  Case mapping and the case
    folding of the [i] flag are the Unicode ones on that range; numbers
    are the integers a double holds, the infinities and [NaN]. *)

From Stdlib Require Import String Ascii List ZArith NArith Bool Lia Arith.
Import ListNotations.

Open Scope string_scope.

(** ** Characters *)

Definition code (a : ascii) : N := N_of_ascii a.

Definition in_range (lo hi a : ascii) : bool :=
  (N.leb (code lo) (code a) && N.leb (code a) (code hi))%bool.

Definition is_digit (a : ascii) : bool := in_range "0" "9" a.
Definition is_upper (a : ascii) : bool := in_range "A" "Z" a.
Definition is_lower (a : ascii) : bool := in_range "a" "z" a.

Definition is_word (a : ascii) : bool :=
  (is_digit a || is_upper a || is_lower a || Ascii.eqb a "_")%bool.

(** WhiteSpace and LineTerminator code units below 256. *)
Definition is_space (a : ascii) : bool :=
  let c := code a in
  ((N.leb 9 c && N.leb c 13) || N.eqb c 32 || N.eqb c 160)%bool.

Definition is_line_terminator (a : ascii) : bool :=
  (N.eqb (code a) 10 || N.eqb (code a) 13)%bool.

(** The capital letters of the Latin-1 Supplement, U+00C0 to U+00DE
    without the multiplication sign U+00D7, and their small forms, U+00E0
    to U+00FE without the division sign U+00F7, 32 further on. *)
Definition is_upper_latin1 (a : ascii) : bool :=
  (in_range "192" "222" a && negb (N.eqb (code a) 215))%bool.

Definition is_lower_latin1 (a : ascii) : bool :=
  (in_range "224" "254" a && negb (N.eqb (code a) 247))%bool.

(** The canonical form the [i] flag compares by: the upper-case form when
    that is one code unit.  The sharp s U+00DF (whose upper-case form is
    two letters) is kept as the standard says; the micro sign U+00B5 and
    the y with diaeresis U+00FF, whose upper-case forms lie above 255 and
    are those of no other character below 256, stand for themselves. *)
Definition to_upper (a : ascii) : ascii :=
  if (is_lower a || is_lower_latin1 a)%bool then ascii_of_N (code a - 32) else a.

(** The lower-case form: every cased character below 256 that is not
    lower case already is one of the capital letters. *)
Definition to_lower (a : ascii) : ascii :=
  if (is_upper a || is_upper_latin1 a)%bool then ascii_of_N (code a + 32) else a.

(** [String.prototype.toLowerCase]. *)
Fixpoint toLowerCase (s : string) : string :=
  match s with
  | EmptyString => EmptyString
  | String a s' => String (to_lower a) (toLowerCase s')
  end.

Fixpoint string_forallb (p : ascii -> bool) (s : string) : bool :=
  match s with
  | EmptyString => true
  | String a s' => (p a && string_forallb p s')%bool
  end.

(** ** Abrupt completions

    [SyntaxError] is what the [RegExp] constructor throws on an invalid
    pattern, [TypeError] what a property access on [undefined] throws.
    [OutOfModel] marks pattern syntax that the embedding does not
    cover (look-ahead, back references, word boundaries, hexadecimal,
    Unicode and control escapes); nothing is proved from it. *)

Inductive exn : Type := SyntaxError | TypeError | OutOfModel.

Inductive completion (A : Type) : Type :=
| Return (a : A)
| Throw (e : exn).

Arguments Return {A} a.
Arguments Throw {A} e.

Definition bind {A B : Type} (x : completion A) (f : A -> completion B)
  : completion B :=
  match x with
  | Return a => f a
  | Throw e => Throw e
  end.

Notation "'do' x <- e1 ; e2" := (bind e1 (fun x => e2))
  (at level 10, x pattern, e1 at level 100, e2 at level 200).

(** ** Regular expressions: syntax trees *)

Module RegExp.

(** One member of a character class. *)
Inductive citem : Type :=
| CRange (lo hi : ascii)
| CDigit (neg : bool)
| CWord (neg : bool)
| CSpace (neg : bool).

Inductive re : Type :=
| REmpty
| RSet (neg : bool) (items : list citem)
| RDot
| RBol
| REol
| RSeq (r1 r2 : re)
| RAlt (r1 r2 : re)
| RGroup (idx : nat) (r : re)
| RRep (r : re) (lo : nat) (hi : option nat) (greedy : bool)
       (gfirst gcount : nat).

Definition rchar (a : ascii) : re := RSet false [CRange a a].

(** Membership of a character in a class member; under the [i] flag two
    characters are the same when their canonical forms are, and the
    characters with the canonical form of [a] are [a], [to_upper a] and
    [to_lower a]. *)
Definition item_mem (ic : bool) (it : citem) (a : ascii) : bool :=
  match it with
  | CRange lo hi =>
      (in_range lo hi a
       || (ic && (in_range lo hi (to_upper a) || in_range lo hi (to_lower a))))%bool
  | CDigit neg => xorb neg (is_digit a)
  | CWord neg => xorb neg (is_word a)
  | CSpace neg => xorb neg (is_space a)
  end.

Definition set_mem (ic neg : bool) (items : list citem) (a : ascii) : bool :=
  xorb neg (existsb (fun it => item_mem ic it a) items).

(** ** The backtracking matcher *)

Definition caps : Type := list (option string).

Fixpoint set_cap (n : nat) (v : option string) (c : caps) : caps :=
  match c, n with
  | [], _ => []
  | _ :: c', O => v :: c'
  | x :: c', S n' => x :: set_cap n' v c'
  end.

Fixpoint clear_caps (first count : nat) (c : caps) : caps :=
  match count with
  | O => c
  | S count' => clear_caps (S first) count' (set_cap first None c)
  end.

(** A continuation receives the end index, the rest of the input and the
    captures so far. *)
Definition cont : Type := nat -> string -> caps -> option (nat * caps).

Section Matcher.

Variable ic : bool.

Fixpoint m (r : re) (i : nat) (s : string) (c : caps) (k : cont)
  {struct r} : option (nat * caps) :=
  match r with
  | REmpty => k i s c
  | RSet neg items =>
      match s with
      | String a s' => if set_mem ic neg items a then k (S i) s' c else None
      | EmptyString => None
      end
  | RDot =>
      match s with
      | String a s' => if is_line_terminator a then None else k (S i) s' c
      | EmptyString => None
      end
  | RBol => if Nat.eqb i 0 then k i s c else None
  | REol => match s with EmptyString => k i s c | _ => None end
  | RSeq r1 r2 => m r1 i s c (fun i' s' c' => m r2 i' s' c' k)
  | RAlt r1 r2 =>
      match m r1 i s c k with
      | Some x => Some x
      | None => m r2 i s c k
      end
  | RGroup idx r1 =>
      m r1 i s c
        (fun i' s' c' => k i' s' (set_cap idx (Some (substring 0 (i' - i) s)) c'))
  | RRep r1 lo hi greedy gfirst gcount =>
      (fix rep (fuel lo : nat) (hi : option nat) (i : nat) (s : string)
           (c : caps) {struct fuel} : option (nat * caps) :=
         match fuel with
         | O => None
         | S fuel' =>
             match hi with
             | Some O => k i s c
             | _ =>
                 let iter :=
                   m r1 i s (clear_caps gfirst gcount c)
                     (fun i' s' c' =>
                        if (Nat.eqb lo 0 && Nat.eqb i' i)%bool then None
                        else rep fuel' (Nat.pred lo) (option_map Nat.pred hi) i' s' c') in
                 if Nat.ltb 0 lo then iter
                 else if greedy then
                   match iter with Some x => Some x | None => k i s c end
                 else
                   match k i s c with Some x => Some x | None => iter end
             end
         end) (lo + String.length s + 2) lo hi i s c
  end.

End Matcher.

(** The iteration of a quantified atom, as [m] runs it. *)
Section Repeat.

Variables (ic : bool) (r1 : re) (greedy : bool) (gfirst gcount : nat) (k : cont).

Fixpoint rep_loop (fuel lo : nat) (hi : option nat) (i : nat) (s : string)
  (c : caps) {struct fuel} : option (nat * caps) :=
  match fuel with
  | O => None
  | S fuel' =>
      match hi with
      | Some O => k i s c
      | _ =>
          let iter :=
            m ic r1 i s (clear_caps gfirst gcount c)
              (fun i' s' c' =>
                 if (Nat.eqb lo 0 && Nat.eqb i' i)%bool then None
                 else rep_loop fuel' (Nat.pred lo) (option_map Nat.pred hi) i' s' c') in
          if Nat.ltb 0 lo then iter
          else if greedy then
            match iter with Some x => Some x | None => k i s c end
          else
            match k i s c with Some x => Some x | None => iter end
      end
  end.

End Repeat.

(** ** The pattern parser

    The grammar is the one of ECMAScript patterns without the [u] flag,
    with the web-compatibility extensions: a brace that does not start a
    quantifier, a closing bracket and a closing brace stand for
    themselves. *)

Fixpoint read_nat_aux (s : string) (acc : nat) : nat * string :=
  match s with
  | String a s' =>
      if is_digit a
      then read_nat_aux s' (10 * acc + N.to_nat (code a - 48))
      else (acc, s)
  | EmptyString => (acc, s)
  end.

Definition read_nat (s : string) : option (nat * string) :=
  match s with
  | String a _ => if is_digit a then Some (read_nat_aux s 0) else None
  | EmptyString => None
  end.

(** The text after an opening brace: [n}], [n,}] or [n,m}]. *)
Definition parse_braced (s : string) : option (nat * option nat * string) :=
  match read_nat s with
  | Some (n, String "}" r) => Some (n, Some n, r)
  | Some (n, String "," (String "}" r)) => Some (n, None, r)
  | Some (n, String "," r) =>
      match read_nat r with
      | Some (k, String "}" r') => Some (n, Some k, r')
      | _ => None
      end
  | _ => None
  end.

Definition parse_quant (s : string) : option (nat * option nat * string) :=
  match s with
  | String "*" r => Some (0, None, r)
  | String "+" r => Some (1, None, r)
  | String "?" r => Some (0, Some 1, r)
  | String "{" r => parse_braced r
  | _ => None
  end.

Definition quant_ordered (lo : nat) (hi : option nat) : bool :=
  match hi with
  | Some h => Nat.leb lo h
  | None => true
  end.

Inductive catom : Type :=
| CAChar (a : ascii)
| CAItem (it : citem).

Definition control_escape (c : ascii) : option ascii :=
  match c with
  | "t" => Some (ascii_of_N 9)
  | "n" => Some (ascii_of_N 10)
  | "v" => Some (ascii_of_N 11)
  | "f" => Some (ascii_of_N 12)
  | "r" => Some (ascii_of_N 13)
  | _ => None
  end%char.

Definition class_escape (c : ascii) : option citem :=
  match c with
  | "d" => Some (CDigit false)
  | "D" => Some (CDigit true)
  | "w" => Some (CWord false)
  | "W" => Some (CWord true)
  | "s" => Some (CSpace false)
  | "S" => Some (CSpace true)
  | _ => None
  end%char.

Definition unsupported_escape (c : ascii) : bool :=
  (is_digit c || Ascii.eqb c "c" || Ascii.eqb c "x" || Ascii.eqb c "u"
   || Ascii.eqb c "k")%bool.

(** The character after a backslash, outside ([inclass = false]) or inside
    a class. *)
Definition escape_atom (inclass : bool) (c : ascii) : completion catom :=
  match class_escape c, control_escape c with
  | Some it, _ => Return (CAItem it)
  | None, Some a => Return (CAChar a)
  | None, None =>
      if unsupported_escape c then Throw OutOfModel
      else if (Ascii.eqb c "b" || Ascii.eqb c "B")%bool then
        if (inclass && Ascii.eqb c "b")%bool then Return (CAChar (ascii_of_N 8))
        else Throw OutOfModel
      else Return (CAChar c)
  end.

Definition class_atom (s : string) : completion (catom * string) :=
  match s with
  | EmptyString => Throw SyntaxError
  | String "\" EmptyString => Throw SyntaxError
  | String "\" (String c r) => do a <- escape_atom true c; Return (a, r)
  | String c r => Return (CAChar c, r)
  end.

Definition catom_item (a : catom) : citem :=
  match a with
  | CAChar c => CRange c c
  | CAItem it => it
  end.

(** The members of a class, up to and including the closing bracket. *)
Fixpoint class_items (fuel : nat) (s : string) (acc : list citem)
  : completion (list citem * string) :=
  match fuel with
  | O => Throw OutOfModel
  | S fuel' =>
      match s with
      | EmptyString => Throw SyntaxError
      | String "]" r => Return (rev acc, r)
      | _ =>
          do (a1, r1) <- class_atom s;
          match r1 with
          | String "-" (String "]" _) | String "-" EmptyString =>
              class_items fuel' r1 (catom_item a1 :: acc)
          | String "-" r2 =>
              do (a2, r3) <- class_atom r2;
              match a1, a2 with
              | CAChar lo, CAChar hi =>
                  if N.leb (code lo) (code hi)
                  then class_items fuel' r3 (CRange lo hi :: acc)
                  else Throw SyntaxError
              | _, _ =>
                  class_items fuel' r3
                    (catom_item a2 :: CRange "-" "-" :: catom_item a1 :: acc)
              end
          | _ => class_items fuel' r1 (catom_item a1 :: acc)
          end
      end
  end.

Definition parse_class (s : string) : completion (re * string) :=
  match s with
  | String "^" r =>
      do (items, rest) <- class_items (S (String.length r)) r [];
      Return (RSet true items, rest)
  | _ =>
      do (items, rest) <- class_items (S (String.length s)) s [];
      Return (RSet false items, rest)
  end.

(** An atom with its quantifier, when one follows. *)
Definition quantified (atom : re) (g g1 : nat) (rest : string)
  : completion (re * string * nat) :=
  match parse_quant rest with
  | None => Return (atom, rest, g1)
  | Some (lo, hi, rest') =>
      if quant_ordered lo hi then
        match rest' with
        | String "?" rest'' => Return (RRep atom lo hi false g (g1 - g), rest'', g1)
        | _ => Return (RRep atom lo hi true g (g1 - g), rest', g1)
        end
      else Throw SyntaxError
  end.

(** [^] and [$] take no quantifier. *)
Definition assertion (a : re) (g : nat) (rest : string)
  : completion (re * string * nat) :=
  match parse_quant rest with
  | None => Return (a, rest, g)
  | Some _ => Throw SyntaxError
  end.

Fixpoint parse_disj (fuel : nat) (s : string) (g : nat) {struct fuel}
  : completion (re * string * nat) :=
  match fuel with
  | O => Throw OutOfModel
  | S f =>
      do (r1, rest, g1) <- parse_alt f s g;
      match rest with
      | String "|" rest' =>
          do (r2, rest2, g2) <- parse_disj f rest' g1;
          Return (RAlt r1 r2, rest2, g2)
      | _ => Return (r1, rest, g1)
      end
  end

with parse_alt (fuel : nat) (s : string) (g : nat) {struct fuel}
  : completion (re * string * nat) :=
  match fuel with
  | O => Throw OutOfModel
  | S f =>
      match s with
      | EmptyString | String "|" _ | String ")" _ => Return (REmpty, s, g)
      | _ =>
          do (r1, rest, g1) <- parse_term f s g;
          do (r2, rest2, g2) <- parse_alt f rest g1;
          Return (RSeq r1 r2, rest2, g2)
      end
  end

with parse_term (fuel : nat) (s : string) (g : nat) {struct fuel}
  : completion (re * string * nat) :=
  match fuel with
  | O => Throw OutOfModel
  | S f =>
      match s with
      | EmptyString => Throw SyntaxError
      | String "^" r => assertion RBol g r
      | String "$" r => assertion REol g r
      | String "(" (String "?" (String ":" r)) =>
          do (body, rest, g1) <- parse_disj f r g;
          match rest with
          | String ")" rest' => quantified body g g1 rest'
          | _ => Throw SyntaxError
          end
      | String "(" (String "?" (String c _)) =>
          if (Ascii.eqb c "=" || Ascii.eqb c "!" || Ascii.eqb c "<")%bool
          then Throw OutOfModel else Throw SyntaxError
      | String "(" (String "?" EmptyString) => Throw SyntaxError
      | String "(" r =>
          do (body, rest, g1) <- parse_disj f r (S g);
          match rest with
          | String ")" rest' => quantified (RGroup g body) g g1 rest'
          | _ => Throw SyntaxError
          end
      | String "." r => quantified RDot g g r
      | String "[" r =>
          do (cls, rest) <- parse_class r;
          quantified cls g g rest
      | String "\" EmptyString => Throw SyntaxError
      | String "\" (String c r) =>
          do a <- escape_atom false c;
          quantified (RSet false [catom_item a]) g g r
      | String c r =>
          match parse_quant s with
          | Some _ => Throw SyntaxError
          | None =>
              if (Ascii.eqb c ")" || Ascii.eqb c "|")%bool then Throw SyntaxError
              else quantified (rchar c) g g r
          end
      end
  end.

(** The [RegExp] constructor applied to a pattern text. *)
Definition parse (src : string) : completion (re * nat) :=
  do (r, rest, g) <- parse_disj (3 * String.length src + 4) src 0;
  match rest with
  | EmptyString => Return (r, g)
  | String _ _ => Throw SyntaxError
  end.

(** The [source] property: an empty pattern reads [(?:)], and a slash or a
    line terminator is written escaped. *)
Fixpoint escape_source (inclass : bool) (s : string) : string :=
  match s with
  | EmptyString => EmptyString
  | String "\" (String c r) =>
      (if N.eqb (code c) 10 then "\n"
       else if N.eqb (code c) 13 then "\r"
       else String "\" (String c EmptyString)) ++ escape_source inclass r
  | String c r =>
      if N.eqb (code c) 10 then "\n" ++ escape_source inclass r
      else if N.eqb (code c) 13 then "\r" ++ escape_source inclass r
      else if Ascii.eqb c "/" then
        (if inclass then "/" else "\/") ++ escape_source inclass r
      else if Ascii.eqb c "[" then String c (escape_source true r)
      else if Ascii.eqb c "]" then String c (escape_source false r)
      else String c (escape_source inclass r)
  end.

Definition source_of (pattern : string) : string :=
  match pattern with
  | EmptyString => "(?:)"
  | _ => escape_source false pattern
  end.

(** A compiled regular expression: the tree, the number of capturing
    groups and the [i] flag. *)
Record regexp : Type := mkRegexp {
  tree : re;
  ngroups : nat;
  ignoreCase : bool
}.

Definition match_at (rx : regexp) (i : nat) (s : string)
  : option (list (option string)) :=
  match m (ignoreCase rx) (tree rx) i s (repeat None (ngroups rx))
          (fun i' _ c' => Some (i', c')) with
  | Some (e, c') => Some (Some (substring 0 (e - i) s) :: c')
  | None => None
  end.

(** [RegExp.prototype.exec] from [lastIndex = 0]: the first start index
    (left to right) at which the pattern matches. *)
Fixpoint exec_from (rx : regexp) (i : nat) (s : string)
  : option (list (option string)) :=
  match match_at rx i s with
  | Some res => Some res
  | None =>
      match s with
      | EmptyString => None
      | String _ s' => exec_from rx (S i) s'
      end
  end.

Definition exec (rx : regexp) (input : string) : option (list (option string)) :=
  exec_from rx 0 input.

(** [RegExp(pattern, flags)]; the source needs only the flag [i]. *)
Definition compile (pattern : string) (icase : bool) : completion regexp :=
  do (r, g) <- parse pattern;
  Return (mkRegexp r g icase).

End RegExp.

(** ** Values and objects *)

(** Numbers are the integers, the two infinities ([VInf true] is the
    negative one) and [NaN]: the parser produces no other number. *)
Inductive value : Type :=
| VUndefined
| VNum (z : Z)
| VInf (negative : bool)
| VNaN
| VStr (s : string).

Definition value_eqb (a b : value) : bool :=
  match a, b with
  | VUndefined, VUndefined => true
  | VNum x, VNum y => Z.eqb x y
  | VInf x, VInf y => Bool.eqb x y
  | VStr x, VStr y => String.eqb x y
  | _, _ => false
  end.

(** The integer nearest to [z] among those a double holds, were its
    exponent unbounded: [z] itself up to 53 significant bits, else [z]
    rounded to 53 significant bits, a tie going to the even significand. *)
Definition round_double (z : Z) : Z :=
  let a := Z.abs z in
  let e := (Z.log2 a - 52)%Z in
  if (e <=? 0)%Z then z
  else
    let q := Z.shiftr a e in
    let r := (a - Z.shiftl q e)%Z in
    let half := Z.shiftl 1 (e - 1) in
    let q' := if (r <? half)%Z then q
              else if (half <? r)%Z then (q + 1)%Z
              else if Z.even q then q else (q + 1)%Z in
    (Z.sgn z * Z.shiftl q' e)%Z.

(** The Number value for a mathematical integer: the nearest double, an
    infinity from 2^1024 on. *)
Definition number_of (z : Z) : value :=
  let r := round_double z in
  if (Z.abs r <? 2 ^ 1024)%Z then VNum r else VInf (z <? 0)%Z.

(** An object with string keys: the entries in insertion order, which is
    the order [Object.keys] and [for-in] enumerate them in. *)
Definition obj : Type := list (string * value).

Fixpoint get (k : string) (o : obj) : value :=
  match o with
  | [] => VUndefined
  | (k', v) :: o' => if String.eqb k k' then v else get k o'
  end.

(** [o[k] = v]: an existing key keeps its place, a new one goes last. *)
Fixpoint set (k : string) (v : value) (o : obj) : obj :=
  match o with
  | [] => [(k, v)]
  | (k', v') :: o' =>
      if String.eqb k k' then (k, v) :: o' else (k', v') :: set k v o'
  end.

Definition keys (o : obj) : list string := map fst o.

Definition has_key (k : string) (o : obj) : bool :=
  existsb (String.eqb k) (keys o).

(** [typeof v === 'undefined'] *)
Definition isUndefined (v : value) : bool :=
  match v with VUndefined => true | _ => false end.

(** ToBoolean *)
Definition truthy (v : value) : bool :=
  match v with
  | VUndefined => false
  | VNum z => negb (Z.eqb z 0)
  | VInf _ => true
  | VNaN => false
  | VStr s => negb (String.eqb s "")
  end.

(** ToBoolean of an object, whatever its entries, is [true]. *)
Definition truthy_obj (o : obj) : bool := true.

Fixpoint skip_space (s : string) : string :=
  match s with
  | String a s' => if is_space a then skip_space s' else s
  | EmptyString => s
  end.

Definition digit_val (radix : Z) (a : ascii) : option Z :=
  let c := Z.of_N (code a) in
  let d := if is_digit a then Some (c - 48)%Z
           else if is_lower a then Some (c - 87)%Z
           else if is_upper a then Some (c - 55)%Z
           else None in
  match d with
  | Some x => if Z.ltb x radix then Some x else None
  | None => None
  end.

Fixpoint read_int (radix : Z) (s : string) (acc : Z) : Z :=
  match s with
  | String a s' =>
      match digit_val radix a with
      | Some d => read_int radix s' (radix * acc + d)%Z
      | None => acc
      end
  | EmptyString => acc
  end.

Definition read_number (radix : Z) (s : string) : value :=
  match s with
  | String a _ =>
      match digit_val radix a with
      | Some _ => number_of (read_int radix s 0)
      | None => VNaN
      end
  | EmptyString => VNaN
  end.

Definition negate (v : value) : value :=
  match v with
  | VNum z => VNum (- z)
  | VInf s => VInf (negb s)
  | _ => VNaN
  end.

(** [parseInt(s)] without a radix: leading white space, a sign, an optional
    [0x] prefix, then the longest run of digits, read exactly and turned
    into the nearest double (all the digits count, as in V8; the standard
    lets an implementation read decimal digits after the twentieth as
    zeros). *)
Definition parseInt_string (s : string) : value :=
  let body (t : string) : value :=
    match t with
    | String "0" (String "x" r) | String "0" (String "X" r) => read_number 16 r
    | _ => read_number 10 t
    end in
  match skip_space s with
  | String "-" r => negate (body r)
  | String "+" r => body r
  | t => body t
  end.

(** [parseInt] of an array element, which is a string or [undefined]. *)
Definition parseInt (x : option string) : value :=
  match x with
  | Some s => parseInt_string s
  | None => VNaN
  end.

(** ToNumber, on the values the parser stores: a string is read as a
    signed decimal integer literal. *)
Definition to_number (v : value) : value :=
  match v with
  | VUndefined => VNaN
  | VStr s =>
      match skip_space s with
      | EmptyString => VNum 0
      | String "-" r =>
          if string_forallb is_digit r then negate (read_number 10 r) else VNaN
      | String "+" r =>
          if string_forallb is_digit r then read_number 10 r else VNaN
      | t => if string_forallb is_digit t then read_number 10 t else VNaN
      end
  | _ => v
  end.

(** [v < n] for a number [n] *)
Definition lt_num (v : value) (n : Z) : bool :=
  match to_number v with
  | VNum z => Z.ltb z n
  | VInf s => s
  | _ => false
  end.

(** [v === n] for a number [n] *)
Definition strict_eq_num (v : value) (n : Z) : bool :=
  match v with
  | VNum z => Z.eqb z n
  | _ => false
  end.

(** [v += 12] *)
Definition add12 (v : value) : value :=
  match v with
  | VNum z => VNum (z + 12)%Z
  | VInf s => VInf s
  | VStr s => VStr (s ++ "12")
  | _ => VNaN
  end.

(** [-v] *)
Definition neg (v : value) : value := negate (to_number v).

(** [first element of a destructured array]: [([s]) => ...] *)
Definition first (l : list (option string)) : option string :=
  match l with
  | x :: _ => x
  | [] => None
  end.

(** [Array.prototype.slice(from, to)] *)
Definition slice {A : Type} (from to : nat) (l : list A) : list A :=
  firstn (to - from) (skipn from l).

(** [Array.prototype.findIndex] *)
Fixpoint findIndex {A : Type} (p : A -> bool) (l : list A) : Z :=
  match l with
  | [] => (-1)%Z
  | x :: l' =>
      if p x then 0%Z
      else let r := findIndex p l' in
           if Z.eqb r (-1) then (-1)%Z else (r + 1)%Z
  end.

(** [Array.prototype.join] *)
Fixpoint join (sep : string) (l : list string) : string :=
  match l with
  | [] => ""
  | [x] => x
  | x :: l' => x ++ sep ++ join sep l'
  end.

(** [s.replace(/\./, by)]: the pattern has no [g] flag, so the first period
    only is replaced. *)
Fixpoint replace_first_dot (by_ : string) (s : string) : string :=
  match s with
  | EmptyString => EmptyString
  | String a s' =>
      if Ascii.eqb a "." then by_ ++ s' else String a (replace_first_dot by_ s')
  end.

(** ** The collaborators' data *)

Import RegExp.

(** A format token, as the formatter's tokenizer yields it. *)
Record Token : Type := mkToken {
  literal : bool;
  val : string
}.

(** The locale: each list of names, or [None] where the source gets
    [null]. *)
Record Locale : Type := mkLocale {
  eras : string -> bool -> option (list string);
  months : string -> bool -> bool -> option (list string);
  weekdays : string -> bool -> bool -> option (list string);
  meridiems : option (list string)
}.

Inductive Zone : Type :=
| FixedOffsetZone (offset : value)
| IANAZone (name : value).

(** ** Match units *)

(** The object [unitate] builds and [unitForToken] completes.  [regex] is
    the [RegExp] object, kept by its [source], the one property that is
    read; an absent property is [None] ([false] for [unit_literal]). *)
Record Unit : Type := mkUnit {
  regex : option string;
  deser : list (option string) -> completion value;
  groups : option nat;
  unit_literal : bool;
  token : option Token;
  invalidReason : option string
}.

Definition MISSING_FTP : string :=
  "missing Intl.DateTimeFormat.formatToParts support".

(** [s.replace(/\./, '\\.?')] *)
Definition fixListRegex (s : string) : string := replace_first_dot "\.?" s.

(** [s.replace(/\./, '').toLowerCase()] *)
Definition stripInsensitivities (s : string) : string :=
  toLowerCase (replace_first_dot "" s).

(** [stripInsensitivities] of an array element: [undefined.replace] throws. *)
Definition stripInsensitivities_opt (x : option string) : completion string :=
  match x with
  | Some s => Return (stripInsensitivities s)
  | None => Throw TypeError
  end.

(** The deserializer of [oneOf].  [findIndex] calls its callback, and with
    it [stripInsensitivities(s)], once per candidate: on an empty list
    nothing is called and the result is -1. *)
Definition oneOf_deser (strings : list string) (startIndex : Z)
  (a : list (option string)) : completion value :=
  match strings with
  | [] => Return (VNum (-1 + startIndex))
  | _ =>
      do s <- stripInsensitivities_opt (first a);
      Return (VNum (findIndex
                      (fun i => String.eqb s (stripInsensitivities i)) strings
                    + startIndex))
  end.

(** [oneOf(strings, startIndex)]: [null] for a [null] list, else the
    alternation of the candidates, each passed through [fixListRegex]. *)
Definition oneOf (strings : option (list string)) (startIndex : Z)
  : completion (option Unit) :=
  match strings with
  | None => Return None
  | Some l =>
      let pattern := join "|" (map fixListRegex l) in
      do _ <- RegExp.parse pattern;
      Return (Some (mkUnit (Some (source_of pattern)) (oneOf_deser l startIndex)
                      None false None None))
  end.

(** [simple(regex)]; the regular-expression literals of the source are
    written as their source text. *)
Definition simple (regex : string) : Unit :=
  mkUnit (Some regex)
    (fun a => Return (match first a with Some s => VStr s | None => VUndefined end))
    None false None None.

(** [literal(t)], named apart from the [literal] property of a token:
    [RegExp(t.val)] takes the text of the token as a pattern. *)
Definition literal_unit (t : Token) : completion Unit :=
  do _ <- RegExp.parse (val t);
  Return (mkUnit (Some (source_of (val t)))
            (fun a => Return (match first a with Some s => VStr s | None => VUndefined end))
            None true None None).

Section TokenParser.

(** The helpers of [util.js] and the tokenizer of [formatter.js]. *)
Variable untruncateYear : value -> value.
Variable signedOffset : option string -> option string -> value.
Variable parseMillis : value -> value.
Variable parseFormat : string -> list Token.

(** [intUnit(regex, post)]; [post] defaults to the identity, [ident]. *)
Definition intUnit (regex : string) (post : value -> value) : Unit :=
  mkUnit (Some regex) (fun a => Return (post (parseInt (first a))))
    None false None None.

(** [offset(regex, groups)]: the deserializer skips the first element of
    its array and passes on the next two. *)
Definition offset (regex : string) (groups : nat) : Unit :=
  mkUnit (Some regex)
    (fun a => Return (signedOffset (nth 1 a None) (nth 2 a None)))
    (Some groups) false None None.

Definition ident (i : value) : value := i.

(** [unitate(token, loc)]: the [switch] on [token.val], case by case;
    [None] is the [null] that [oneOf] returns. *)
Definition unitate (token : Token) (loc : Locale) : completion (option Unit) :=
  let int (regex : string) := Return (Some (intUnit regex ident)) in
  let lit := do u <- literal_unit token; Return (Some u) in
  if literal token then lit
  else
    let v := val token in
    if String.eqb v "G" then oneOf (eras loc "short" false) 0
    else if String.eqb v "GG" then oneOf (eras loc "long" false) 0
    else if String.eqb v "y" then int "\d{1,6}"
    else if String.eqb v "yy" then
      Return (Some (intUnit "\d{2,4}" untruncateYear))
    else if String.eqb v "yyyy" then int "\d{4}"
    else if String.eqb v "yyyyy" then int "\d{4,6}"
    else if String.eqb v "yyyyyy" then int "\d{6}"
    else if String.eqb v "M" then int "\d{1,2}"
    else if String.eqb v "MM" then int "\d{2}"
    else if String.eqb v "MMM" then oneOf (months loc "short" false false) 1
    else if String.eqb v "MMMM" then oneOf (months loc "long" false false) 1
    else if String.eqb v "L" then int "\d{1,2}"
    else if String.eqb v "LL" then int "\d{2}"
    else if String.eqb v "LLL" then oneOf (months loc "short" true false) 1
    else if String.eqb v "LLLL" then oneOf (months loc "long" true false) 1
    else if String.eqb v "d" then int "\d{1,2}"
    else if String.eqb v "dd" then int "\d{2}"
    else if String.eqb v "o" then int "\d{1,3}"
    else if String.eqb v "ooo" then int "\d{3}"
    else if String.eqb v "HH" then int "\d{2}"
    else if String.eqb v "H" then int "\d{1,2}"
    else if String.eqb v "hh" then int "\d{2}"
    else if String.eqb v "h" then int "\d{1,2}"
    else if String.eqb v "mm" then int "\d{2}"
    else if String.eqb v "m" then int "\d{1,2}"
    else if String.eqb v "s" then int "\d{1,2}"
    else if String.eqb v "ss" then int "\d{2}"
    else if String.eqb v "S" then int "\d{1,3}"
    else if String.eqb v "SSS" then int "\d{3}"
    else if String.eqb v "u" then Return (Some (simple "\d{1,9}"))
    else if String.eqb v "a" then oneOf (meridiems loc) 0
    else if String.eqb v "kkkk" then int "\d{4}"
    else if String.eqb v "kk" then
      Return (Some (intUnit "\d{2,4}" untruncateYear))
    else if String.eqb v "W" then int "\d{1,2}"
    else if String.eqb v "WW" then int "\d{2}"
    else if (String.eqb v "E" || String.eqb v "c")%bool then int "\d"
    else if String.eqb v "EEE" then oneOf (weekdays loc "short" false false) 1
    else if String.eqb v "EEEE" then oneOf (weekdays loc "long" false false) 1
    else if String.eqb v "ccc" then oneOf (weekdays loc "short" true false) 1
    else if String.eqb v "cccc" then oneOf (weekdays loc "long" true false) 1
    else if (String.eqb v "Z" || String.eqb v "ZZ")%bool then
      Return (Some (offset "([+-]\d{1,2})(?::(\d{2}))?" 2))
    else if String.eqb v "ZZZ" then
      Return (Some (offset "([+-]\d{1,2})(\d{2})?" 2))
    else if String.eqb v "z" then
      Return (Some (simple "[A-Za-z_]{1,256}\/[A-Za-z_]{1,256}"))
    else lit.

(** [unit.token = token] *)
Definition with_token (u : Unit) (t : Token) : Unit :=
  mkUnit (regex u) (deser u) (groups u) (unit_literal u) (Some t)
    (invalidReason u).

(** [unitate(token, loc) || { invalidReason: MISSING_FTP }], then the
    token. *)
Definition unitForToken (token : Token) (loc : Locale) : completion Unit :=
  do u <- unitate token loc;
  let unit :=
    match u with
    | Some u' => u'
    | None => mkUnit None (fun _ => Return VUndefined) None false None
                (Some MISSING_FTP)
    end in
  Return (with_token unit token).

(** [r.source] of a [regex] property; of [undefined] it throws. *)
Definition source (r : option string) : completion string :=
  match r with
  | Some src => Return src
  | None => Throw TypeError
  end.

(** [buildRegex(units)]: each source in parentheses, between [^] and [$]. *)
Definition buildRegex (units : list Unit) : completion (string * list Unit) :=
  do re <- fold_left
             (fun f r => do f' <- f; do src <- source r;
                         Return (f' ++ "(" ++ src ++ ")"))
             (map regex units) (Return "");
  Return ("^" ++ re ++ "$", units).

(** [h.groups ? h.groups + 1 : 1] *)
Definition group_span (h : Unit) : nat :=
  match groups h with
  | Some g => if Nat.eqb g 0 then 1 else g + 1
  | None => 1
  end.

(** [val[0]] used as a property key. *)
Definition key_of (t : Token) : string :=
  match val t with
  | String c _ => String c EmptyString
  | EmptyString => "undefined"
  end.

(** The body of the [for-in] loop of [match], over the handlers in index
    order. *)
Fixpoint match_loop (handlers : list Unit) (matches : list (option string))
  (matchIndex : nat) (all : obj) : completion obj :=
  match handlers with
  | [] => Return all
  | h :: rest =>
      let groups := group_span h in
      do all' <-
        match unit_literal h, token h with
        | false, Some t =>
            do v <- deser h (slice matchIndex (matchIndex + groups) matches);
            Return (set (key_of t) v all)
        | _, _ => Return all
        end;
      match_loop rest matches (matchIndex + groups) all'
  end.

(** [match(input, regex, handlers)] *)
Definition match_ (input : string) (regex : regexp) (handlers : list Unit)
  : completion (option (list (option string)) * obj) :=
  match exec regex input with
  | Some matches =>
      do all <- match_loop handlers matches 1 [];
      Return (Some matches, all)
  | None => Return (None, [])
  end.

(** [toField]: the calendar field of a key, or [None] for [null]. *)
Definition toField (token : string) : option string :=
  if String.eqb token "S" then Some "millisecond"
  else if String.eqb token "s" then Some "second"
  else if String.eqb token "m" then Some "minute"
  else if (String.eqb token "h" || String.eqb token "H")%bool then Some "hour"
  else if String.eqb token "d" then Some "day"
  else if String.eqb token "o" then Some "ordinal"
  else if (String.eqb token "L" || String.eqb token "M")%bool then Some "month"
  else if String.eqb token "y" then Some "year"
  else if (String.eqb token "E" || String.eqb token "c")%bool then Some "weekday"
  else if String.eqb token "W" then Some "weekNumber"
  else if String.eqb token "k" then Some "weekYear"
  else None.

(** The zone: a fixed offset when [Z] is defined, else a named zone when
    [z] is, else [null]. *)
Definition zone_of (matches : obj) : option Zone :=
  if negb (isUndefined (get "Z" matches)) then
    Some (FixedOffsetZone (get "Z" matches))
  else if negb (isUndefined (get "z" matches)) then
    Some (IANAZone (get "z" matches))
  else None.

(** [if (!isUndefined(matches.h)) ...]: the 12-hour adjustment. *)
Definition adjust_hour (matches : obj) : obj :=
  if negb (isUndefined (get "h" matches)) then
    if (lt_num (get "h" matches) 12 && strict_eq_num (get "a" matches) 1)%bool
    then set "h" (add12 (get "h" matches)) matches
    else if (strict_eq_num (get "h" matches) 12
             && strict_eq_num (get "a" matches) 0)%bool
    then set "h" (VNum 0) matches
    else matches
  else matches.

(** [if (matches.G === 0 && matches.y) matches.y = -matches.y] *)
Definition adjust_era (matches : obj) : obj :=
  if (strict_eq_num (get "G" matches) 0 && truthy (get "y" matches))%bool
  then set "y" (neg (get "y" matches)) matches
  else matches.

(** [if (!isUndefined(matches.u)) matches.S = parseMillis(matches.u)] *)
Definition adjust_millis (matches : obj) : obj :=
  if negb (isUndefined (get "u" matches))
  then set "S" (parseMillis (get "u" matches)) matches
  else matches.

(** The [reduce] over [Object.keys(matches)]. *)
Definition collect (matches : obj) : obj :=
  fold_left
    (fun r k =>
       match toField k with
       | Some f => set f (get k matches) r
       | None => r
       end)
    (keys matches) [].

(** [dateTimeFromMatches] writes into its argument: the third component is
    that object after the call. *)
Definition dateTimeFromMatches (matches : obj) : obj * option Zone * obj :=
  let zone := zone_of matches in
  let matches1 := adjust_millis (adjust_era (adjust_hour matches)) in
  (collect matches1, zone, matches1).

(** What [explainFromTokens] returns: one constructor per [return]. *)
Inductive Explanation : Type :=
| Invalid (input : string) (tokens : list Token) (invalidReason : string)
| Explained (input : string) (tokens : list Token) (regex : string)
    (rawMatches : option (list (option string))) (matches : obj)
    (result : option obj) (zone : option Zone).

(** [if (unit.invalidReason)] *)
Definition reason_of (u : Unit) : option string :=
  match invalidReason u with
  | Some r => if String.eqb r "" then None else Some r
  | None => None
  end.

(** The [for] loop of [explainFromTokens]: the units, or the reason the
    loop returned with. *)
Fixpoint compile_units (rest : list Token) (locale : Locale)
  (units : list Unit) : completion (string + list Unit) :=
  match rest with
  | [] => Return (inr units)
  | t :: rest' =>
      do unit <- unitForToken t locale;
      match reason_of unit with
      | Some r => Return (inl r)
      | None => compile_units rest' locale (units ++ [unit])
      end
  end.

(** [explainFromTokens(locale, input, format)]; the guard before
    [dateTimeFromMatches] tests the raw field map. *)
Definition explainFromTokens (locale : Locale) (input format : string)
  : completion Explanation :=
  let tokens := parseFormat format in
  do compiled <- compile_units tokens locale [];
  match compiled with
  | inl reason => Return (Invalid input tokens reason)
  | inr units =>
      do (regexString, handlers) <- buildRegex units;
      do regex <- RegExp.compile regexString true;
      do (rawMatches, matches) <- match_ input regex handlers;
      let '(result, zone, matches') :=
        if truthy_obj matches then
          let '(vals, z, after) := dateTimeFromMatches matches in
          (Some vals, z, after)
        else (None, None, matches) in
      Return (Explained input tokens regexString rawMatches matches' result zone)
  end.

End TokenParser.

(** ** Collaborators, from their contracts *)

Module Collaborators.

(** Modelled from the spec: the sign/magnitude offset decoder
    ([signedOffset] of util.js, not among the sources):
    [decode(hourText, minuteText|absent)] gives signed minutes, the minutes
    taking the sign written before the hour. *)
Definition signedOffset (h m : option string) : value :=
  let num (x : option string) : Z :=
    match parseInt x with VNum z => z | _ => 0%Z end in
  let negative :=
    match h with Some (String "-" _) => true | _ => false end in
  VNum (num h * 60 + (if negative then - num m else num m))%Z.

(** Modelled from the spec: [n] characters of [s], zeros making up for
    the missing ones. *)
Fixpoint pad_right (n : nat) (s : string) : string :=
  match n with
  | O => EmptyString
  | S n' =>
      match s with
      | String a s' => String a (pad_right n' s')
      | EmptyString => String "0" (pad_right n' EmptyString)
      end
  end.

(** Modelled from the spec: the sub-second parser ([parseMillis] of
    util.js): the digit string cut or zero-filled on the right to three
    digits, read as an integer. *)
Definition parseMillis (v : value) : value :=
  match v with
  | VStr s => parseInt_string (pad_right 3 s)
  | _ => VNaN
  end.

(** Modelled from the spec: the token read so far, when there is one. *)
Definition flush (lit : bool) (cur : string) (acc : list Token) : list Token :=
  match cur with
  | EmptyString => acc
  | _ => mkToken lit cur :: acc
  end.

(** Modelled from the spec: one pass over the format, a quote switching
    between literal and symbolic text. *)
Fixpoint tokenize (fmt : string) (current : option ascii) (cur : string)
  (bracketed : bool) (acc : list Token) : list Token :=
  match fmt with
  | EmptyString => rev (flush bracketed cur acc)
  | String c fmt' =>
      if Ascii.eqb c "'" then
        tokenize fmt' None EmptyString (negb bracketed) (flush bracketed cur acc)
      else if bracketed then
        tokenize fmt' current (cur ++ String c EmptyString) bracketed acc
      else
        match current with
        | Some c' =>
            if Ascii.eqb c c' then
              tokenize fmt' current (cur ++ String c EmptyString) bracketed acc
            else
              tokenize fmt' (Some c) (String c EmptyString) bracketed
                (flush false cur acc)
        | None =>
            tokenize fmt' (Some c) (String c EmptyString) bracketed
              (flush false cur acc)
        end
  end.

(** Modelled from the spec: the format tokenizer ([Formatter.parseFormat],
    not among the sources): the tokens in source order, a quoted stretch
    as one literal token, a run of one letter as one symbolic token. *)
Definition parseFormat (fmt : string) : list Token :=
  tokenize fmt None EmptyString false [].

(** English names, as a locale with [formatToParts] yields them. *)
Definition en : Locale :=
  mkLocale
    (fun length _ =>
       Some (if String.eqb length "short" then ["BC"; "AD"]
             else ["Before Christ"; "Anno Domini"]))
    (fun length _ _ =>
       Some (if String.eqb length "short"
             then ["Jan"; "Feb"; "Mar"; "Apr"; "May"; "Jun"; "Jul"; "Aug";
                   "Sep"; "Oct"; "Nov"; "Dec"]
             else ["January"; "February"; "March"; "April"; "May"; "June";
                   "July"; "August"; "September"; "October"; "November";
                   "December"]))
    (fun length _ _ =>
       Some (if String.eqb length "short"
             then ["Mon"; "Tue"; "Wed"; "Thu"; "Fri"; "Sat"; "Sun"]
             else ["Monday"; "Tuesday"; "Wednesday"; "Thursday"; "Friday";
                   "Saturday"; "Sunday"]))
    (Some ["AM"; "PM"]).

(** A locale that abbreviates with periods. *)
Definition dotted : Locale :=
  mkLocale
    (fun _ _ => Some ["B.C."; "A.D."])
    (fun _ _ _ =>
       Some ["Jan."; "Feb."; "Mar."; "Apr."; "May"; "Jun."; "Jul."; "Aug.";
             "Sep."; "Oct."; "Nov."; "Dec."])
    (fun _ _ _ => Some ["Mon."; "Tue."; "Wed."; "Thu."; "Fri."; "Sat."; "Sun."])
    (Some ["a.m."; "p.m."]).

(** A runtime without [formatToParts]: no list of names. *)
Definition bare : Locale :=
  mkLocale (fun _ _ => None) (fun _ _ _ => None) (fun _ _ _ => None) None.

Definition explain (locale : Locale) (input format : string)
  : completion Explanation :=
  explainFromTokens ident signedOffset parseMillis parseFormat
    locale input format.

End Collaborators.

(** ** Notions the statements use *)

(** The group index [match] has reached before its [j]-th handler, when it
    starts from [idx]; [match] itself starts from 1. *)
Definition cursor_from (idx : nat) (handlers : list Unit) (j : nat) : nat :=
  idx + list_sum (map group_span (firstn j handlers)).

Definition cursor (handlers : list Unit) (j : nat) : nat :=
  cursor_from 1 handlers j.

(** A handler that is not literal and owns token [t]. *)
Definition owns (h : Unit) (t : Token) : Prop :=
  unit_literal h = false /\ token h = Some t.

(** [leads code k]: the property key [k] is the first character of the
    code [code] of a token; of the empty code, whose first character is
    [undefined], it is the name ["undefined"]. *)
Inductive leads : string -> string -> Prop :=
| leads_first (c : ascii) (rest : string) :
    leads (String c rest) (String c EmptyString)
| leads_empty : leads EmptyString "undefined".

(** What the deserializer of [h] gives on the groups it is handed at
    group index [idx]. *)
Definition deser_at (h : Unit) (matches : list (option string)) (idx : nat)
  : completion value :=
  deser h (slice idx (idx + group_span h) matches).

(** The key of [ks] that decides field [f]: the last one [toField] sends
    to [f]. *)
Fixpoint last_source (f : string) (ks : list string) : option string :=
  match ks with
  | [] => None
  | k :: ks' =>
      match last_source f ks' with
      | Some k' => Some k'
      | None =>
          match toField k with
          | Some f' => if String.eqb f' f then Some k else None
          | None => None
          end
      end
  end.

(** The resolved fields of a raw field map. *)
Definition resolved (parseMillis : value -> value) (matches : obj) : obj :=
  fst (fst (dateTimeFromMatches parseMillis matches)).


(** [RegExp(pattern, 'i')] for a pattern known to be valid. *)
Definition regexp_i (pattern : string) : regexp :=
  match compile pattern true with
  | Return rx => rx
  | Throw _ => mkRegexp REmpty 0 true
  end.

(** Units of a month, a dash and a two-digit month, as [unitForToken]
    leaves them. *)
Definition month_units : list Unit :=
  [ with_token (intUnit "\d{1,2}" ident) (mkToken false "M");
    mkUnit (Some "-")
      (fun a => Return (match first a with Some s => VStr s | None => VUndefined end))
      None true (Some (mkToken false "-")) None;
    with_token (intUnit "\d{2}" ident) (mkToken false "MM") ].

(** Units of a day, a space, a month, a dash and a two-digit month, as
    [unitForToken] leaves them. *)
Definition day_month_units : list Unit :=
  with_token (intUnit "\d{1,2}" ident) (mkToken false "d")
  :: mkUnit (Some " ")
       (fun a => Return (match first a with Some s => VStr s | None => VUndefined end))
       None true (Some (mkToken true " ")) None
  :: month_units.

(** The sub-pattern of a unit accepts [s]: assembled alone by
    [buildRegex], it matches [s]. *)
Definition accepts (u : Unit) (s : string) : bool :=
  match buildRegex [u] with
  | Return (regexString, _) =>
      match compile regexString true with
      | Return rx => match exec rx s with Some _ => true | None => false end
      | Throw _ => false
      end
  | Throw _ => false
  end.

(** The tree of [^(\d{lo,hi})$]. *)
Definition digits_tree (lo hi : nat) : re :=
  RSeq RBol
    (RSeq (RGroup 0 (RSeq (RRep (RSet false [CDigit false]) lo (Some hi) true 1 0)
                       REmpty))
       (RSeq REol REmpty)).

(** A run of [lo] to [hi] decimal digits. *)
Definition digit_run (lo hi : nat) (s : string) : bool :=
  (string_forallb is_digit s && Nat.leb lo (String.length s)
   && Nat.leb (String.length s) hi)%bool.

(** The raw field map of an explanation, when there is one. *)
Definition raw_map (e : completion Explanation) : option obj :=
  match e with
  | Return (Explained _ _ _ (Some _) matches _ _) => Some matches
  | _ => None
  end.

(** The explanation reports a match. *)
Definition matched (e : completion Explanation) : bool :=
  match e with
  | Return (Explained _ _ _ (Some _) _ _ _) => true
  | _ => false
  end.

(** The groups [match] hands to a unit beyond the primary one, which
    [buildRegex] wraps around its sub-pattern. *)
Definition extra_groups (u : Unit) : nat := group_span u - 1.

(** What the sub-pattern of a unit, assembled alone by [buildRegex],
    captures on [s]. *)
Definition captures (u : Unit) (s : string) : option (list (option string)) :=
  match buildRegex [u] with
  | Return (regexString, _) =>
      match compile regexString true with
      | Return rx => exec rx s
      | Throw _ => None
      end
  | Throw _ => None
  end.

(** A sign and one or two digits. *)
Definition is_hour_text (h : string) : bool :=
  match h with
  | String sg d =>
      ((Ascii.eqb sg "+" || Ascii.eqb sg "-") && digit_run 1 2 d)%bool
  | EmptyString => false
  end.

(** Two digits. *)
Definition is_minute_text (mi : string) : bool := digit_run 2 2 mi.

Definition digit_chars : list ascii :=
  ["0"; "1"; "2"; "3"; "4"; "5"; "6"; "7"; "8"; "9"]%char.

Definition two_digits : list string :=
  flat_map (fun a => map (fun b => String a (String b EmptyString)) digit_chars)
    digit_chars.

Definition hour_texts : list string :=
  flat_map
    (fun sg =>
       map (String sg)
         (map (fun a => String a EmptyString) digit_chars ++ two_digits)%list)
    ["+"; "-"]%char.

Fixpoint caps_eqb (a b : list (option string)) : bool :=
  match a, b with
  | [], [] => true
  | Some x :: a', Some y :: b' => (String.eqb x y && caps_eqb a' b')%bool
  | None :: a', None :: b' => caps_eqb a' b'
  | _, _ => false
  end.

Definition result_eqb (a b : option (list (option string))) : bool :=
  match a, b with
  | Some x, Some y => caps_eqb x y
  | None, None => true
  | _, _ => false
  end.

Definition offset_colon_rx : regexp :=
  Eval vm_compute in regexp_i "^(([+-]\d{1,2})(?::(\d{2}))?)$".

Definition offset_bare_rx : regexp :=
  Eval vm_compute in regexp_i "^(([+-]\d{1,2})(\d{2})?)$".

(** The captures an offset pattern is to give on hour [h] and minute [mi]
    joined by [sep], and on the hour alone. *)
Definition offset_check (rx : regexp) (sep h mi : string) : bool :=
  let whole := h ++ sep ++ mi in
  (result_eqb (exec rx whole) (Some [Some whole; Some whole; Some h; Some mi])
   && result_eqb (exec rx h) (Some [Some h; Some h; Some h; None]))%bool.

(** A continuation that fails unless the input is used up. *)
Definition at_end_only (k : cont) : Prop :=
  forall i a s c, k i (String a s) c = None.

(** Two continuations that agree wherever [m], started at index [i] on
    [s], can call them: on a rest of [s], at the index that goes with
    it. *)
Definition agree_from (i : nat) (s : string) (k k' : cont) : Prop :=
  forall i' s' c',
    i' + String.length s' = i + String.length s ->
    String.length s' <= String.length s ->
    k i' s' c' = k' i' s' c'.

(** The continuation an iteration hands to its atom. *)
Definition rep_cont (ic : bool) (r1 : re) (greedy : bool) (gfirst gcount : nat)
  (k : cont) (fuel lo : nat) (hi : option nat) (i : nat) : cont :=
  fun i' s' c' =>
    if (Nat.eqb lo 0 && Nat.eqb i' i)%bool then None
    else rep_loop ic r1 greedy gfirst gcount k fuel (Nat.pred lo)
           (option_map Nat.pred hi) i' s' c'.

(** A character with a meaning of its own in a pattern, or one that
    [source] writes escaped. *)
Definition syntax_char (c : ascii) : bool :=
  (existsb (Ascii.eqb c) (list_ascii_of_string "^$\.*+?()[]{}|/")
   || is_line_terminator c)%bool.

(** A text without such characters. *)
Definition plain_text (s : string) : bool :=
  string_forallb (fun c => negb (syntax_char c)) s.

(** The tree of a text read as a pattern, character by character. *)
Fixpoint chars_tree (s : string) : re :=
  match s with
  | EmptyString => REmpty
  | String c s' => RSeq (rchar c) (chars_tree s')
  end.

(** What ends an alternative of a group: the end of the pattern or a
    closing parenthesis. *)
Definition closes (tail : string) : bool :=
  match tail with
  | EmptyString => true
  | String c _ => Ascii.eqb c ")"
  end.

(** A text with every period removed and in lower case: the normal form
    the enumeration matcher is to compare. *)
Fixpoint strip_periods (s : string) : string :=
  match s with
  | EmptyString => EmptyString
  | String a s' =>
      if Ascii.eqb a "." then strip_periods s' else String a (strip_periods s')
  end.

Definition normalize (s : string) : string := toLowerCase (strip_periods s).

Fixpoint periods (s : string) : nat :=
  match s with
  | EmptyString => 0
  | String a s' => (if Ascii.eqb a "." then 1 else 0) + periods s'
  end.

(** ** [parseFromTokens] *)

(** A property read by destructuring: [undefined] when the object has
    none, [null], or a value. *)
Inductive property (A : Type) : Type :=
| Undefined
| Null
| Value (a : A).

Arguments Undefined {A}.
Arguments Null {A}.
Arguments Value {A} a.

Definition of_nullable {A : Type} (x : option A) : property A :=
  match x with
  | Some a => Value a
  | None => Null
  end.

(** [parseFromTokens(locale, input, format)]: the array
    [[result, zone, invalidReason]] picked from the explanation. *)
Definition parseFromTokens
  (untruncateYear : value -> value)
  (signedOffset : option string -> option string -> value)
  (parseMillis : value -> value)
  (parseFormat : string -> list Token)
  (locale : Locale) (input format : string)
  : completion (property obj * property Zone * property string) :=
  do e <- explainFromTokens untruncateYear signedOffset parseMillis parseFormat
            locale input format;
  Return
    match e with
    | Invalid _ _ reason => (Undefined, Undefined, Value reason)
    | Explained _ _ _ _ _ result zone =>
        (of_nullable result, of_nullable zone, Undefined)
    end.

(** ** Tables read off [unitate] and [toField] *)

(** The codes [unitate] compiles to a run of digits, with the least and
    the greatest number of digits of the pattern. *)
Definition int_widths : list (string * (nat * nat)) :=
  [ ("y", (1, 6)); ("yy", (2, 4)); ("yyyy", (4, 4)); ("yyyyy", (4, 6));
    ("yyyyyy", (6, 6));
    ("M", (1, 2)); ("MM", (2, 2)); ("L", (1, 2)); ("LL", (2, 2));
    ("d", (1, 2)); ("dd", (2, 2)); ("o", (1, 3)); ("ooo", (3, 3));
    ("HH", (2, 2)); ("H", (1, 2)); ("hh", (2, 2)); ("h", (1, 2));
    ("mm", (2, 2)); ("m", (1, 2)); ("s", (1, 2)); ("ss", (2, 2));
    ("S", (1, 3)); ("SSS", (3, 3)); ("u", (1, 9));
    ("kkkk", (4, 4)); ("kk", (2, 4)); ("W", (1, 2)); ("WW", (2, 2));
    ("E", (1, 1)); ("c", (1, 1)) ].

(** The codes of the [case] labels of [unitate]. *)
Definition symbolic_codes : list string :=
  [ "G"; "GG"; "y"; "yy"; "yyyy"; "yyyyy"; "yyyyyy";
    "M"; "MM"; "MMM"; "MMMM"; "L"; "LL"; "LLL"; "LLLL";
    "d"; "dd"; "o"; "ooo"; "HH"; "H"; "hh"; "h"; "mm"; "m"; "s"; "ss";
    "S"; "SSS"; "u"; "a"; "kkkk"; "kk"; "W"; "WW"; "E"; "c";
    "EEE"; "EEEE"; "ccc"; "cccc"; "Z"; "ZZ"; "ZZZ"; "z" ].

(** The codes whose pattern is written in the source, not built from the
    locale's names. *)
Definition fixed_codes : list string :=
  (map fst int_widths ++ ["Z"; "ZZ"; "ZZZ"; "z"])%list.

(** The names [toField] returns. *)
Definition field_names : list string :=
  [ "millisecond"; "second"; "minute"; "hour"; "day"; "ordinal"; "month";
    "year"; "weekday"; "weekNumber"; "weekYear" ].

(** The sources of the units, each in parentheses, in a row. *)
Fixpoint wrapped (units : list Unit) : string :=
  match units with
  | [] => EmptyString
  | u :: rest =>
      "(" ++ (match regex u with Some src => src | None => EmptyString end)
      ++ ")" ++ wrapped rest
  end.

(** The number a run of decimal digits writes, most significant digit
    first. *)
Fixpoint decimal (s : string) (acc : Z) : Z :=
  match s with
  | EmptyString => acc
  | String a s' => decimal s' (10 * acc + (Z.of_N (code a) - 48))%Z
  end.

(** The tree of [^(\d)$]. *)
Definition digit_tree : re :=
  RSeq RBol
    (RSeq (RGroup 0 (RSeq (RSet false [CDigit false]) REmpty))
       (RSeq REol REmpty)).

(** The unit has a [regex] property. *)
Definition has_regex (u : Unit) : bool :=
  match regex u with
  | Some _ => true
  | None => false
  end.

(** Candidates without pattern syntax, none of them empty. *)
Definition plain_names (l : list string) : bool :=
  forallb (fun x => (plain_text x && negb (String.eqb x ""))%bool) l.

(** The tree of the alternation of such candidates. *)
Fixpoint alts_tree (l : list string) : re :=
  match l with
  | [] => REmpty
  | [x] => chars_tree x
  | x :: l' => RAlt (chars_tree x) (alts_tree l')
  end.

(** What ends an alternative: the end of the pattern, a closing
    parenthesis or a bar. *)
Definition ends_alternative (tail : string) : bool :=
  match tail with
  | EmptyString => true
  | String c _ => (Ascii.eqb c ")" || Ascii.eqb c "|")%bool
  end.

(** [s] is one of the candidates, but for the case of its letters. *)
Definition names (l : list string) (s : string) : bool :=
  existsb (fun c => String.eqb (toLowerCase s) (toLowerCase c)) l.

(** A character [source] writes escaped. *)
Definition escaped_char (c : ascii) : bool :=
  (existsb (Ascii.eqb c) (list_ascii_of_string "\/[]") || is_line_terminator c)%bool.

(** Every character, by its code. *)
Definition all_ascii : list ascii := map ascii_of_nat (seq 0 256).

(** French names with a letter of the Latin-1 Supplement: August in small
    letters, with U+00FB, and in capitals, with U+00DB. *)
Definition aout : string :=
  String "a" (String "o" (String "251" (String "t" EmptyString))).

Definition AOUT : string :=
  String "A" (String "O" (String "219" (String "T" EmptyString))).

(** The keys of the integer tokens. *)
Definition integer_keys : list string :=
  ["y"; "M"; "L"; "d"; "o"; "H"; "h"; "m"; "s"; "S"; "k"; "W"; "E"; "c"].

(** * Properties *)

(** ** Objects *)

Lemma get_set_same (k : string) (v : value) (o : obj) :
  get k (set k v o) = v.
Proof.
  induction o as [|[k' v'] o IH]; simpl.
  - now rewrite String.eqb_refl.
  - destruct (String.eqb k k') eqn:E; simpl.
    + now rewrite String.eqb_refl.
    + now rewrite E.
Qed.

Lemma get_set_other (k k' : string) (v : value) (o : obj) :
  k <> k' -> get k (set k' v o) = get k o.
Proof.
  intros Hne. induction o as [|[k0 v0] o IH]; simpl.
  - apply String.eqb_neq in Hne. now rewrite Hne.
  - destruct (String.eqb k' k0) eqn:E; simpl.
    + apply String.eqb_eq in E. subst k0.
      apply String.eqb_neq in Hne. now rewrite Hne.
    + now rewrite IH.
Qed.

Lemma keys_set (k k' : string) (v : value) (o : obj) :
  In k (keys (set k' v o)) <-> k = k' \/ In k (keys o).
Proof.
  induction o as [|[k0 v0] o IH]; simpl.
  - intuition.
  - destruct (String.eqb k' k0) eqn:E; simpl.
    + apply String.eqb_eq in E. subst k0. intuition.
    + rewrite IH. intuition.
Qed.

Lemma keys_set_present (k : string) (v : value) (o : obj) :
  In k (keys o) -> keys (set k v o) = keys o.
Proof.
  induction o as [|[k0 v0] o IH]; simpl; [tauto|].
  intros H. destruct (String.eqb k k0) eqn:E; simpl.
  - apply String.eqb_eq in E. now subst.
  - f_equal. apply IH. destruct H as [H|H]; [|exact H].
    subst k0. now rewrite String.eqb_refl in E.
Qed.

Lemma keys_set_NoDup (k : string) (v : value) (o : obj) :
  NoDup (keys o) -> NoDup (keys (set k v o)).
Proof.
  induction o as [|[k0 v0] o IH]; simpl; intros H.
  - constructor; [simpl; tauto | constructor].
  - inversion H as [|? ? Hnin Hnd]; subst.
    destruct (String.eqb k k0) eqn:E; simpl.
    + apply String.eqb_eq in E. subst k0. now constructor.
    + constructor; [|now apply IH].
      fold (keys (set k v o)). rewrite keys_set. intros [->|Hin]; [|tauto].
      now rewrite String.eqb_refl in E.
Qed.

Lemma get_absent (k : string) (o : obj) :
  ~ In k (keys o) -> get k o = VUndefined.
Proof.
  induction o as [|[k0 v0] o IH]; simpl; [reflexivity|].
  intros H. destruct (String.eqb k k0) eqn:E.
  - apply String.eqb_eq in E. subst. tauto.
  - apply IH. tauto.
Qed.

(** ** The matcher's field map *)

Lemma cursor_from_0 (idx : nat) (hs : list Unit) :
  cursor_from idx hs 0 = idx.
Proof. unfold cursor_from. simpl. lia. Qed.

Lemma cursor_from_S (idx : nat) (h : Unit) (hs : list Unit) (j : nat) :
  cursor_from idx (h :: hs) (S j) = cursor_from (idx + group_span h) hs j.
Proof. unfold cursor_from. simpl. lia. Qed.

Lemma owns_dec (h : Unit) : (exists t, owns h t) \/ (forall t, ~ owns h t).
Proof.
  unfold owns. destruct (unit_literal h); [right; intros t [H _]; discriminate|].
  destruct (token h) as [t|]; [left; now exists t|right; intros t [_ H]; discriminate].
Qed.

(** The loop of [match], from any group index and any object so far. *)
Lemma match_loop_spec (caps : list (option string)) (hs : list Unit) :
  forall (idx : nat) (all0 : obj),
    (forall j h t, nth_error hs j = Some h -> owns h t ->
       exists v, deser_at h caps (cursor_from idx hs j) = Return v) ->
    exists all,
      match_loop hs caps idx all0 = Return all
      /\ (NoDup (keys all0) -> NoDup (keys all))
      /\ (forall k, In k (keys all) <->
            In k (keys all0)
            \/ exists h t, In h hs /\ owns h t /\ key_of t = k)
      /\ (forall k, (forall h t, In h hs -> owns h t -> key_of t <> k) ->
            get k all = get k all0)
      /\ (forall j h t v,
            nth_error hs j = Some h -> owns h t ->
            (forall j' h' t', j < j' -> nth_error hs j' = Some h' ->
               owns h' t' -> key_of t' <> key_of t) ->
            deser_at h caps (cursor_from idx hs j) = Return v ->
            get (key_of t) all = v).
Proof.
  induction hs as [|h hs IH]; intros idx all0 Hret.
  - exists all0. simpl. repeat split; try tauto.
    + intros [H|(h & t & [] & _)]; exact H.
    + intros j h t v Hn. destruct j; discriminate.
  - assert (Hrest : forall j h' t, nth_error hs j = Some h' -> owns h' t ->
              exists v, deser_at h' caps (cursor_from (idx + group_span h) hs j) = Return v).
    { intros j h' t Hn Ho. rewrite <- cursor_from_S. now apply (Hret (S j) h' t). }
    destruct (owns_dec h) as [[t Ho]|Hno].
    + destruct (Hret 0 h t eq_refl Ho) as [v Hv].
      rewrite cursor_from_0 in Hv.
      destruct (IH (idx + group_span h) (set (key_of t) v all0) Hrest)
        as (all & Hrun & Hnd & Hkeys & Hkeep & Hlast).
      exists all. split.
      { simpl. destruct Ho as [Hl Ht]. rewrite Hl, Ht.
        unfold deser_at in Hv. rewrite Hv. simpl. exact Hrun. }
      split. { intros H. apply Hnd. now apply keys_set_NoDup. }
      split.
      { intros k. rewrite Hkeys, keys_set. split.
        - intros [[->|H]|(h' & t' & Hin & Ho' & Hk)].
          + right. exists h, t. simpl. auto.
          + now left.
          + right. exists h', t'. simpl. auto.
        - intros [H|(h' & t' & [->|Hin] & Ho' & Hk)].
          + left. now right.
          + left. left. destruct Ho as [_ Ht], Ho' as [_ Ht'].
            rewrite Ht in Ht'. injection Ht' as <-. now symmetry.
          + right. exists h', t'. auto. }
      split.
      { intros k Hnone. rewrite Hkeep.
        - apply get_set_other. intros ->. apply (Hnone h t); simpl; auto.
        - intros h' t' Hin. apply Hnone. now right. }
      { intros j h' t' v' Hn Ho' Hlater Hv'. destruct j as [|j].
        - injection Hn as <-.
          assert (t' = t) as ->.
          { destruct Ho as [_ Ht], Ho' as [_ Ht']. rewrite Ht in Ht'. now injection Ht'. }
          rewrite cursor_from_0, Hv in Hv'. injection Hv' as <-.
          rewrite Hkeep; [apply get_set_same|].
          intros h2 t2 Hin Ho2. apply In_nth_error in Hin. destruct Hin as [j2 Hj2].
          apply (Hlater (S j2) h2 t2); [lia|exact Hj2|exact Ho2].
        - rewrite cursor_from_S in Hv'.
          apply (Hlast j h' t' v' Hn Ho'); [|exact Hv'].
          intros j' h2 t2 Hlt Hn2. apply (Hlater (S j') h2 t2); [lia|exact Hn2]. }
    + destruct (IH (idx + group_span h) all0 Hrest)
        as (all & Hrun & Hnd & Hkeys & Hkeep & Hlast).
      exists all. split.
      { simpl. destruct (unit_literal h) eqn:Hl; [exact Hrun|].
        destruct (token h) as [t|] eqn:Ht; [|exact Hrun].
        exfalso. apply (Hno t). now split. }
      split; [exact Hnd|]. split.
      { intros k. rewrite Hkeys. split.
        - intros [H|(h' & t' & Hin & Ho' & Hk)]; [now left|].
          right. exists h', t'. simpl. auto.
        - intros [H|(h' & t' & [->|Hin] & Ho' & Hk)]; [now left| |].
          + exfalso. now apply (Hno t').
          + right. exists h', t'. auto. }
      split.
      { intros k Hnone. apply Hkeep. intros h' t' Hin. apply Hnone. now right. }
      { intros j h' t' v' Hn Ho' Hlater Hv'. destruct j as [|j].
        - injection Hn as <-. exfalso. now apply (Hno t').
        - rewrite cursor_from_S in Hv'.
          apply (Hlast j h' t' v' Hn Ho'); [|exact Hv'].
          intros j' h2 t2 Hlt Hn2. apply (Hlater (S j') h2 t2); [lia|exact Hn2]. }
Qed.

(** ** The field resolver *)

Lemma get_present (k : string) (o : obj) :
  isUndefined (get k o) = false -> In k (keys o).
Proof.
  intros H. destruct (in_dec string_dec k (keys o)) as [Hin|Hnin]; [exact Hin|].
  rewrite (get_absent k o Hnin) in H. discriminate.
Qed.

Lemma keys_set_absent (k : string) (v : value) (o : obj) :
  ~ In k (keys o) -> keys (set k v o) = (keys o ++ [k])%list.
Proof.
  induction o as [|[k0 v0] o IH]; simpl; [reflexivity|].
  intros H. destruct (String.eqb k k0) eqn:E.
  - apply String.eqb_eq in E. subst. tauto.
  - simpl. f_equal. apply IH. tauto.
Qed.

Lemma collect_fold (matches : obj) (f : string) (ks : list string) :
  forall r0 : obj,
    get f (fold_left
             (fun r k =>
                match toField k with
                | Some f' => set f' (get k matches) r
                | None => r
                end) ks r0)
    = match last_source f ks with
      | Some k => get k matches
      | None => get f r0
      end.
Proof.
  induction ks as [|k ks IH]; intros r0; simpl; [reflexivity|].
  rewrite IH. destruct (last_source f ks) as [k'|]; [reflexivity|].
  destruct (toField k) as [f'|]; [|reflexivity].
  destruct (String.eqb f' f) eqn:E.
  - apply String.eqb_eq in E. subst. apply get_set_same.
  - apply String.eqb_neq in E. apply get_set_other. congruence.
Qed.

Lemma collect_get (matches : obj) (f : string) :
  get f (collect matches)
  = match last_source f (keys matches) with
    | Some k => get k matches
    | None => VUndefined
    end.
Proof. unfold collect. now rewrite collect_fold. Qed.

Lemma last_source_app (f : string) (ks1 ks2 : list string) :
  last_source f (ks1 ++ ks2)%list
  = match last_source f ks2 with
    | Some k => Some k
    | None => last_source f ks1
    end.
Proof.
  induction ks1 as [|k ks1 IH]; simpl.
  - now destruct (last_source f ks2).
  - rewrite IH. now destruct (last_source f ks2).
Qed.

Lemma last_source_none (f : string) (ks : list string) :
  (forall k, In k ks -> toField k <> Some f) -> last_source f ks = None.
Proof.
  induction ks as [|k ks IH]; intros H; simpl; [reflexivity|].
  rewrite IH by (intros k' Hk'; apply H; now right).
  destruct (toField k) as [f'|] eqn:E; [|reflexivity].
  destruct (String.eqb f' f) eqn:E'; [|reflexivity].
  apply String.eqb_eq in E'. subst. exfalso. apply (H k); [now left|exact E].
Qed.

Lemma keys_adjust_hour (matches : obj) : keys (adjust_hour matches) = keys matches.
Proof.
  unfold adjust_hour.
  destruct (isUndefined (get "h" matches)) eqn:E; simpl; [reflexivity|].
  apply get_present in E.
  repeat match goal with |- context [if ?b then _ else _] => destruct b end;
    try reflexivity; now apply keys_set_present.
Qed.

Lemma keys_adjust_era (matches : obj) : keys (adjust_era matches) = keys matches.
Proof.
  unfold adjust_era.
  destruct (strict_eq_num (get "G" matches) 0); simpl; [|reflexivity].
  destruct (truthy (get "y" matches)) eqn:E; [|reflexivity].
  apply keys_set_present, get_present. now destruct (get "y" matches).
Qed.

Lemma keys_adjust_millis (parseMillis : value -> value) (matches : obj) :
  keys (adjust_millis parseMillis matches) = keys matches
  \/ keys (adjust_millis parseMillis matches) = (keys matches ++ ["S"])%list.
Proof.
  unfold adjust_millis. destruct (isUndefined (get "u" matches)); simpl; [now left|].
  destruct (in_dec string_dec "S" (keys matches)) as [Hin|Hnin].
  - left. now apply keys_set_present.
  - right. now apply keys_set_absent.
Qed.

Lemma get_adjust_millis (parseMillis : value -> value) (matches : obj) (k : string) :
  k <> "S" -> get k (adjust_millis parseMillis matches) = get k matches.
Proof.
  intros H. unfold adjust_millis.
  destruct (isUndefined (get "u" matches)); simpl; [reflexivity|].
  now apply get_set_other.
Qed.

Lemma get_adjust_era (matches : obj) (k : string) :
  k <> "y" -> get k (adjust_era matches) = get k matches.
Proof.
  intros H. unfold adjust_era.
  destruct (strict_eq_num (get "G" matches) 0 && truthy (get "y" matches))%bool;
    [now apply get_set_other|reflexivity].
Qed.

Lemma get_adjust_hour (matches : obj) (k : string) :
  k <> "h" -> get k (adjust_hour matches) = get k matches.
Proof.
  intros H. unfold adjust_hour.
  repeat match goal with |- context [if ?b then _ else _] => destruct b end;
    try reflexivity; now apply get_set_other.
Qed.

(** The field a key decides does not depend on a trailing [S]. *)
Lemma last_source_adjusted (parseMillis : value -> value) (matches : obj) (f : string) :
  f <> "millisecond" ->
  last_source f (keys (adjust_millis parseMillis (adjust_era (adjust_hour matches))))
  = last_source f (keys matches).
Proof.
  intros Hf.
  destruct (keys_adjust_millis parseMillis (adjust_era (adjust_hour matches))) as [E|E];
    rewrite E, keys_adjust_era, keys_adjust_hour; [reflexivity|].
  rewrite last_source_app.
  assert (last_source f ["S"] = None) as ->; [|reflexivity].
  apply last_source_none. intros k [<-|[]] H.
  change (toField "S") with (Some "millisecond") in H. congruence.
Qed.

Lemma resolved_get (parseMillis : value -> value) (matches : obj) (f : string) :
  f <> "millisecond" ->
  get f (resolved parseMillis matches)
  = match last_source f (keys matches) with
    | Some k => get k (adjust_millis parseMillis (adjust_era (adjust_hour matches)))
    | None => VUndefined
    end.
Proof.
  intros Hf. unfold resolved, dateTimeFromMatches. simpl.
  now rewrite collect_get, last_source_adjusted.
Qed.

Ltac by_key k :=
  repeat match goal with
         | |- context [String.eqb k ?c] =>
             destruct (String.eqb_spec k c) as [->|?];
             [vm_compute; intros; try discriminate; auto|]
         end.

Lemma toField_year (k : string) : toField k = Some "year" -> k = "y".
Proof. unfold toField. by_key k. simpl. discriminate. Qed.


Lemma last_source_last (f k : string) (pre post : list string) :
  toField k = Some f ->
  (forall k', In k' post -> toField k' <> Some f) ->
  last_source f (pre ++ k :: post)%list = Some k.
Proof.
  intros Hk Hpost. rewrite last_source_app. simpl.
  rewrite (last_source_none f post Hpost), Hk. now rewrite String.eqb_refl.
Qed.

Lemma last_source_sound (f k : string) (ks : list string) :
  last_source f ks = Some k -> toField k = Some f.
Proof.
  induction ks as [|k0 ks IH]; simpl; [discriminate|].
  destruct (last_source f ks); [exact IH|].
  destruct (toField k0) as [f'|] eqn:Ef; [|discriminate].
  destruct (String.eqb f' f) eqn:E; [|discriminate].
  apply String.eqb_eq in E. intros H. injection H as <-. now subst.
Qed.

Lemma last_source_unique (f k : string) (ks : list string) :
  (forall k', toField k' = Some f -> k' = k) ->
  toField k = Some f -> In k ks ->
  last_source f ks = Some k.
Proof.
  intros Huniq Hk. induction ks as [|k0 ks IH]; simpl; [tauto|].
  intros Hin. destruct (last_source f ks) as [k'|] eqn:E.
  - f_equal. now apply Huniq, (last_source_sound f k' ks).
  - destruct Hin as [->|Hin]; [|now specialize (IH Hin)].
    now rewrite Hk, String.eqb_refl.
Qed.



Lemma value_eqb_num (z : Z) : value_eqb (VNum z) (VNum z) = true.
Proof. simpl. apply Z.eqb_refl. Qed.






(** The raw field map of that counterexample is the one [match] builds. *)
Lemma hour_tokens_both :
  Collaborators.explain Collaborators.en "5 PM 3" "h a H"
  = Return
      (Explained "5 PM 3"
         [mkToken false "h"; mkToken false " "; mkToken false "a";
          mkToken false " "; mkToken false "H"]
         "^(\d{1,2})( )(AM|PM)( )(\d{1,2})$"
         (Some [Some "5 PM 3"; Some "5"; Some " "; Some "PM"; Some " "; Some "3"])
         [("h", VNum 17); ("a", VNum 1); ("H", VNum 3)]
         (Some [("hour", VNum 3)]) None).
Proof. vm_compute. reflexivity. Qed.

(** C7: for a raw field map with an era flag and a year, the resolved year
    is the negated year when the flag is 0 (BCE) and the year itself
    otherwise (CE). *)
Theorem C7_era_adjustment (parseMillis : value -> value) (matches : obj)
  (g y : Z) :
  get "G" matches = VNum g ->
  get "y" matches = VNum y ->
  get "year" (resolved parseMillis matches)
  = VNum (if Z.eqb g 0 then - y else y).
Proof.
  intros Hg Hy.
  assert (Hin : In "y" (keys matches)) by (apply get_present; now rewrite Hy).
  rewrite resolved_get by discriminate.
  assert (Hsrc : last_source "year" (keys matches) = Some "y")
    by (apply last_source_unique; [exact toField_year|reflexivity|exact Hin]).
  rewrite Hsrc, get_adjust_millis by discriminate.
  unfold adjust_era.
  rewrite (get_adjust_hour matches "G"), (get_adjust_hour matches "y") by discriminate.
  rewrite Hg, Hy. simpl.
  destruct (Z.eqb_spec g 0) as [->|Hg0]; simpl.
  - destruct (Z.eqb_spec y 0) as [->|Hy0]; simpl.
    + rewrite get_adjust_hour by discriminate. exact Hy.
    + now rewrite get_set_same.
  - rewrite get_adjust_hour by discriminate. exact Hy.
Qed.

Lemma C7_era_adjustment_witness :
  let bce := [("y", VNum 44); ("G", VNum 0)] in
  let ce := [("y", VNum 44); ("G", VNum 1)] in
  get "year" (resolved Collaborators.parseMillis bce) = VNum (-44)
  /\ get "year" (resolved Collaborators.parseMillis ce) = VNum 44.
Proof.
  intros bce ce. split.
  - apply (C7_era_adjustment Collaborators.parseMillis bce 0 44); reflexivity.
  - apply (C7_era_adjustment Collaborators.parseMillis ce 1 44); reflexivity.
Defined.

Lemma key_of_leads (t : Token) (k : string) :
  leads (val t) k <-> key_of t = k.
Proof.
  unfold key_of. split.
  - intros H. destruct H; reflexivity.
  - intros <-. destruct (val t); constructor.
Qed.

(** C8: when the assembled pattern matches and every deserializer
    returns, the raw field map [match] builds has at most one entry per
    key; its keys are exactly the first characters of the codes of the
    tokens owned by the non-literal descriptors, so a literal descriptor
    contributes none; and under the first character of the code of such a
    token stands the value deserialized by the last (left to right)
    non-literal descriptor whose code has that first character, from the
    groups at its cursor. *)
Theorem C8_raw_field_map (input : string) (rx : regexp) (handlers : list Unit)
  (caps : list (option string)) :
  exec rx input = Some caps ->
  (forall j h t, nth_error handlers j = Some h -> owns h t ->
     exists v, deser_at h caps (cursor handlers j) = Return v) ->
  exists all,
    match_ input rx handlers = Return (Some caps, all)
    /\ NoDup (keys all)
    /\ (forall k, In k (keys all) <->
          exists h t, In h handlers /\ owns h t /\ leads (val t) k)
    /\ (forall j h t k v,
          nth_error handlers j = Some h -> owns h t -> leads (val t) k ->
          (forall j' h' t', j < j' -> nth_error handlers j' = Some h' ->
             owns h' t' -> ~ leads (val t') k) ->
          deser_at h caps (cursor handlers j) = Return v ->
          get k all = v).
Proof.
  intros Hexec Hret.
  destruct (match_loop_spec caps handlers 1 [] Hret)
    as (all & Hrun & Hnd & Hkeys & _ & Hlast).
  exists all. unfold match_. rewrite Hexec, Hrun. simpl.
  split; [reflexivity|]. split; [apply Hnd; constructor|]. split.
  - intros k. rewrite Hkeys. simpl. split.
    + intros [[]|(h & t & Hin & Ho & Hk)]. exists h, t.
      now rewrite key_of_leads.
    + intros (h & t & Hin & Ho & Hk). right. exists h, t.
      now rewrite <- key_of_leads.
  - intros j h t k v Hn Ho Hk Hlater Hv.
    apply key_of_leads in Hk. subst k.
    apply (Hlast j h t v Hn Ho); [|exact Hv].
    intros j' h' t' Hlt Hn' Ho' Heq.
    apply (Hlater j' h' t' Hlt Hn' Ho'). now apply key_of_leads.
Qed.

Lemma C8_raw_field_map_witness :
  let rx := regexp_i "^(\d{1,2})( )(\d{1,2})(-)(\d{2})$" in
  let caps := [Some "3 7-12"; Some "3"; Some " "; Some "7"; Some "-"; Some "12"] in
  exec rx "3 7-12" = Some caps
  /\ exists all,
       match_ "3 7-12" rx day_month_units = Return (Some caps, all)
       /\ NoDup (keys all)
       /\ (forall k, In k (keys all) <-> k = "d" \/ k = "M")
       /\ get "d" all = VNum 3
       /\ get "M" all = VNum 12.
Proof.
  intros rx caps. split; [vm_compute; reflexivity|].
  destruct (C8_raw_field_map "3 7-12" rx day_month_units caps)
    as (all & Hm & Hnd & Hk & Hl).
  - vm_compute. reflexivity.
  - intros j h t Hn [Hlit Ht].
    destruct j as [|[|[|[|[|j]]]]]; simpl in Hn; try (destruct j; discriminate);
      injection Hn as <-; try discriminate Hlit; eexists; vm_compute; reflexivity.
  - exists all. split; [exact Hm|]. split; [exact Hnd|]. split; [|split].
    + intros k. rewrite Hk. split.
      * intros (h & t & Hin & [Hlit Ht] & Hlead).
        simpl in Hin. destruct Hin as [<-|[<-|[<-|[<-|[<-|[]]]]]];
          try discriminate Hlit; injection Ht as <-; simpl in Hlead;
          inversion Hlead; auto.
      * intros [->| ->].
        -- exists (with_token (intUnit "\d{1,2}" ident) (mkToken false "d")),
             (mkToken false "d").
           split; [simpl; auto|]. split; [split; reflexivity|constructor].
        -- exists (with_token (intUnit "\d{2}" ident) (mkToken false "MM")),
             (mkToken false "MM").
           split; [simpl; auto 6|]. split; [split; reflexivity|constructor].
    + apply (Hl 0 (with_token (intUnit "\d{1,2}" ident) (mkToken false "d"))
                (mkToken false "d") "d" (VNum 3)).
      * reflexivity.
      * split; reflexivity.
      * constructor.
      * intros j' h' t' Hlt Hn [Hlit Ht] Hlead.
        destruct j' as [|[|[|[|[|j']]]]]; try lia; simpl in Hn;
          try (destruct j'; discriminate); injection Hn as <-;
          try discriminate Hlit; injection Ht as <-; simpl in Hlead;
          inversion Hlead.
      * vm_compute. reflexivity.
    + apply (Hl 4 (with_token (intUnit "\d{2}" ident) (mkToken false "MM"))
                (mkToken false "MM") "M" (VNum 12)).
      * reflexivity.
      * split; reflexivity.
      * constructor.
      * intros j' h' t' Hlt Hn. destruct j' as [|[|[|[|[|j']]]]]; try lia;
          simpl in Hn; destruct j'; discriminate.
      * vm_compute. reflexivity.
Defined.

(** ** The regular-expression matcher *)

Lemma m_rep (ic : bool) (r1 : re) (lo : nat) (hi : option nat) (greedy : bool)
  (gfirst gcount i : nat) (s : string) (c : caps) (k : cont) :
  m ic (RRep r1 lo hi greedy gfirst gcount) i s c k
  = rep_loop ic r1 greedy gfirst gcount k (lo + String.length s + 2) lo hi i s c.
Proof. reflexivity. Qed.

Lemma m_seq (ic : bool) (r1 r2 : re) (i : nat) (s : string) (c : caps) (k : cont) :
  m ic (RSeq r1 r2) i s c k = m ic r1 i s c (fun i' s' c' => m ic r2 i' s' c' k).
Proof. reflexivity. Qed.

Lemma m_bol (ic : bool) (s : string) (c : caps) (k : cont) :
  m ic RBol 0 s c k = k 0 s c.
Proof. reflexivity. Qed.

Lemma m_group (ic : bool) (idx : nat) (r : re) (i : nat) (s : string) (c : caps)
  (k : cont) :
  m ic (RGroup idx r) i s c k
  = m ic r i s c
      (fun i' s' c' => k i' s' (set_cap idx (Some (substring 0 (i' - i) s)) c')).
Proof. reflexivity. Qed.

Lemma agree_from_later (i i' : nat) (s s' : string) (k k' : cont) :
  agree_from i s k k' ->
  i' + String.length s' = i + String.length s ->
  String.length s' <= String.length s ->
  agree_from i' s' k k'.
Proof. intros H Hi Hl i2 s2 c2 Hi2 Hl2. apply H; lia. Qed.

Lemma rep_loop_S (ic : bool) (r1 : re) (greedy : bool) (gfirst gcount : nat)
  (k : cont) (fuel lo : nat) (hi : option nat) (i : nat) (s : string) (c : caps) :
  rep_loop ic r1 greedy gfirst gcount k (S fuel) lo hi i s c
  = match hi with
    | Some O => k i s c
    | _ =>
        let iter :=
          m ic r1 i s (clear_caps gfirst gcount c)
            (rep_cont ic r1 greedy gfirst gcount k fuel lo hi i) in
        if Nat.ltb 0 lo then iter
        else if greedy then
          match iter with Some x => Some x | None => k i s c end
        else
          match k i s c with Some x => Some x | None => iter end
    end.
Proof. reflexivity. Qed.

Lemma rep_loop_ext (ic : bool) (r1 : re) (greedy : bool) (gfirst gcount : nat)
  (k k' : cont) :
  (forall i s c k k', agree_from i s k k' -> m ic r1 i s c k = m ic r1 i s c k') ->
  forall (fuel lo : nat) (hi : option nat) (i : nat) (s : string) (c : caps),
    agree_from i s k k' ->
    rep_loop ic r1 greedy gfirst gcount k fuel lo hi i s c
    = rep_loop ic r1 greedy gfirst gcount k' fuel lo hi i s c.
Proof.
  intros Hm. induction fuel as [|fuel IH]; intros lo hi i s c Hk; [reflexivity|].
  rewrite !rep_loop_S. rewrite (Hk i s c eq_refl (le_n _)).
  assert (Hiter :
    m ic r1 i s (clear_caps gfirst gcount c)
      (rep_cont ic r1 greedy gfirst gcount k fuel lo hi i)
    = m ic r1 i s (clear_caps gfirst gcount c)
        (rep_cont ic r1 greedy gfirst gcount k' fuel lo hi i)).
  { apply Hm. intros i' s' c' Hi Hl. unfold rep_cont.
    destruct (Nat.eqb lo 0 && Nat.eqb i' i)%bool; [reflexivity|].
    apply IH. now apply (agree_from_later i i' s s'). }
  cbv zeta. rewrite Hiter. reflexivity.
Qed.

(** [m] calls its continuation on rests of its input only. *)
Lemma m_ext (ic : bool) (r : re) :
  forall (i : nat) (s : string) (c : caps) (k k' : cont),
    agree_from i s k k' -> m ic r i s c k = m ic r i s c k'.
Proof.
  induction r as [|neg items| | | |r1 IH1 r2 IH2|r1 IH1 r2 IH2|idx r1 IH1
                 |r1 IH1 lo hi greedy gfirst gcount];
    intros i s c k k' Hk.
  - apply Hk; lia.
  - simpl. destruct s as [|a s]; [reflexivity|].
    destruct (set_mem ic neg items a); [|reflexivity]. apply Hk; simpl; lia.
  - simpl. destruct s as [|a s]; [reflexivity|].
    destruct (is_line_terminator a); [reflexivity|]. apply Hk; simpl; lia.
  - simpl. destruct (Nat.eqb i 0); [|reflexivity]. apply Hk; lia.
  - simpl. destruct s; [|reflexivity]. apply Hk; lia.
  - rewrite !m_seq. apply IH1. intros i' s' c' Hi Hl. apply IH2.
    now apply (agree_from_later i i' s s').
  - simpl. rewrite (IH1 i s c k k' Hk), (IH2 i s c k k' Hk). reflexivity.
  - rewrite !m_group. apply IH1. intros i' s' c' Hi Hl. now apply Hk.
  - rewrite !m_rep. now apply rep_loop_ext.
Qed.

(** The fuel [m] gives to an iteration is enough: more of it changes
    nothing, so [None] is a failure to match. *)
Lemma rep_loop_fuel (ic : bool) (r1 : re) (greedy : bool) (gfirst gcount : nat)
  (k : cont) :
  forall (fuel lo : nat) (hi : option nat) (i : nat) (s : string) (c : caps),
    lo + String.length s < fuel ->
    rep_loop ic r1 greedy gfirst gcount k (S fuel) lo hi i s c
    = rep_loop ic r1 greedy gfirst gcount k fuel lo hi i s c.
Proof.
  induction fuel as [|fuel IH]; intros lo hi i s c Hf; [lia|].
  rewrite (rep_loop_S ic r1 greedy gfirst gcount k (S fuel)),
    (rep_loop_S ic r1 greedy gfirst gcount k fuel).
  assert (Hiter :
    m ic r1 i s (clear_caps gfirst gcount c)
      (rep_cont ic r1 greedy gfirst gcount k (S fuel) lo hi i)
    = m ic r1 i s (clear_caps gfirst gcount c)
        (rep_cont ic r1 greedy gfirst gcount k fuel lo hi i)).
  { apply m_ext. intros i' s' c' Hi Hl. unfold rep_cont.
    destruct (Nat.eqb lo 0 && Nat.eqb i' i)%bool eqn:E; [reflexivity|].
    apply IH. apply andb_false_iff in E.
    destruct E as [E|E]; apply Nat.eqb_neq in E; lia. }
  cbv zeta. rewrite Hiter. reflexivity.
Qed.

Lemma m_rep_fuel (ic : bool) (r1 : re) (lo : nat) (hi : option nat) (greedy : bool)
  (gfirst gcount i : nat) (s : string) (c : caps) (k : cont) (extra : nat) :
  rep_loop ic r1 greedy gfirst gcount k (extra + (lo + String.length s + 2)) lo hi i s c
  = m ic (RRep r1 lo hi greedy gfirst gcount) i s c k.
Proof.
  rewrite m_rep. induction extra as [|extra IH]; [reflexivity|].
  rewrite <- IH. apply rep_loop_fuel. lia.
Qed.

Lemma string_forallb_ext (p q : ascii -> bool) (s : string) :
  (forall a, p a = q a) -> string_forallb p s = string_forallb q s.
Proof. intros H. induction s as [|a s IH]; simpl; [reflexivity|]. now rewrite H, IH. Qed.

Lemma substring_all (s : string) : substring 0 (String.length s) s = s.
Proof. induction s as [|a s IH]; simpl; [reflexivity|]. now rewrite IH. Qed.

(** A greedy bounded run of one character class, followed by the end of
    the input: the whole rest must be in the class and of a length within
    the bounds. *)
Lemma rep_set_end (ic neg : bool) (items : list citem) (gfirst : nat) (k : cont) :
  at_end_only k ->
  forall (s : string) (fuel lo hi i : nat) (c : caps),
    lo <= hi -> String.length s < fuel ->
    rep_loop ic (RSet neg items) true gfirst 0 k fuel lo (Some hi) i s c
    = if (string_forallb (set_mem ic neg items) s
          && Nat.leb lo (String.length s) && Nat.leb (String.length s) hi)%bool
      then k (i + String.length s) EmptyString c
      else None.
Proof.
  intros Hk. induction s as [|a s IH]; intros fuel lo hi i c Hle Hfuel.
  - destruct fuel as [|fuel]; [simpl in Hfuel; lia|]. simpl.
    rewrite Nat.add_0_r. destruct hi as [|hi].
    + assert (lo = 0) as -> by lia. reflexivity.
    + destruct lo as [|lo]; reflexivity.
  - destruct fuel as [|fuel]; [simpl in Hfuel; lia|].
    simpl in Hfuel. cbn [rep_loop String.length string_forallb].
    destruct hi as [|hi].
    + rewrite Hk. rewrite andb_false_r. reflexivity.
    + cbn [m clear_caps option_map Nat.pred].
      assert (Hne : Nat.eqb (S i) i = false) by (apply Nat.eqb_neq; lia).
      rewrite Hne, andb_false_r.
      rewrite (IH fuel (Nat.pred lo) hi (S i) c) by lia.
      rewrite Hk. replace (S i + String.length s) with (i + S (String.length s)) by lia.
      destruct (set_mem ic neg items a); simpl.
      * destruct lo as [|lo]; simpl.
        -- destruct (_ && _)%bool; [|reflexivity].
           now destruct (k _ _ _).
        -- reflexivity.
      * now destruct (Nat.ltb 0 lo).
Qed.

Lemma set_mem_digit (ic : bool) (a : ascii) :
  set_mem ic false [CDigit false] a = is_digit a.
Proof. unfold set_mem. simpl. now destruct (is_digit a). Qed.

(** A pattern that starts with [^] matches at index 0 or not at all. *)
Lemma exec_anchored (rx : regexp) (r : re) (s : string) :
  tree rx = RSeq RBol r -> exec rx s = match_at rx 0 s.
Proof.
  intros Ht.
  assert (Hlater : forall t i, exec_from rx (S i) t = None).
  { induction t as [|a t IH]; intros i; simpl; unfold match_at; rewrite Ht; simpl;
      [reflexivity|apply IH]. }
  unfold exec. destruct s as [|a s]; simpl.
  - now destruct (match_at rx 0 "").
  - rewrite Hlater. now destruct (match_at rx 0 (String a s)).
Qed.

Lemma digits_match (lo hi : nat) (s : string) :
  lo <= hi ->
  exec (mkRegexp (digits_tree lo hi) 1 true) s
  = if digit_run lo hi s then Some [Some s; Some s] else None.
Proof.
  intros Hle. unfold digits_tree.
  erewrite exec_anchored by (simpl; reflexivity).
  unfold match_at.
  cbn [tree ignoreCase ngroups repeat].
  rewrite m_seq, m_bol, m_seq, m_group, m_seq, m_rep.
  match goal with
  | |- context [rep_loop _ _ _ _ _ ?k _ _ _ _ _ _] =>
      rewrite (rep_set_end true false [CDigit false] 1 k)
  end.
  - rewrite (string_forallb_ext _ is_digit s (set_mem_digit true)).
    unfold digit_run. destruct (_ && _ && _)%bool; [|reflexivity].
    simpl. rewrite Nat.sub_0_r, substring_all. reflexivity.
  - intros i a t c. reflexivity.
  - exact Hle.
  - lia.
Qed.

Lemma accepts_digits (u : Unit) (src : string) (lo hi : nat) (s : string) :
  regex u = Some src ->
  compile ("^" ++ ("" ++ "(" ++ src ++ ")") ++ "$") true
  = Return (mkRegexp (digits_tree lo hi) 1 true) ->
  lo <= hi ->
  accepts u s = digit_run lo hi s.
Proof.
  intros Hsrc Hc Hle. unfold accepts, buildRegex.
  cbn [map fold_left bind]. rewrite Hsrc. cbn [source bind].
  rewrite Hc, (digits_match lo hi s Hle).
  now destruct (digit_run lo hi s).
Qed.

(** C10: the token [y] compiles to the sub-pattern [\d{1,6}], which
    accepts exactly the runs of one to six digits, and the token [u] to
    [\d{1,9}], which accepts exactly the runs of one to nine digits and
    whose deserializer returns the captured text as it is. *)
Theorem C10_year_and_fraction_widths
  (untruncateYear : value -> value)
  (signedOffset : option string -> option string -> value)
  (loc : Locale) :
  (exists unit,
     unitate untruncateYear signedOffset (mkToken false "y") loc
     = Return (Some unit)
     /\ regex unit = Some "\d{1,6}"
     /\ forall s, accepts unit s = true <->
          string_forallb is_digit s = true /\ 1 <= String.length s <= 6)
  /\ (exists unit,
        unitate untruncateYear signedOffset (mkToken false "u") loc
        = Return (Some unit)
        /\ regex unit = Some "\d{1,9}"
        /\ (forall s, accepts unit s = true <->
              string_forallb is_digit s = true /\ 1 <= String.length s <= 9)
        /\ forall text rest, deser unit (Some text :: rest) = Return (VStr text)).
Proof.
  assert (Hrun : forall lo hi s, digit_run lo hi s = true <->
            string_forallb is_digit s = true /\ lo <= String.length s <= hi).
  { intros lo hi s. unfold digit_run. rewrite !andb_true_iff, !Nat.leb_le. tauto. }
  split.
  - exists (intUnit "\d{1,6}" ident). split; [reflexivity|]. split; [reflexivity|].
    intros s. rewrite <- Hrun.
    rewrite (accepts_digits _ "\d{1,6}" 1 6 s); [tauto|reflexivity| |lia].
    vm_compute. reflexivity.
  - exists (simple "\d{1,9}"). split; [reflexivity|]. split; [reflexivity|]. split.
    + intros s. rewrite <- Hrun.
      rewrite (accepts_digits _ "\d{1,9}" 1 9 s); [tauto|reflexivity| |lia].
      vm_compute. reflexivity.
    + reflexivity.
Qed.

Lemma exec_empty_pattern (input : string) :
  exec (mkRegexp (RSeq RBol (RSeq REol REmpty)) 0 true) input
  = match input with
    | EmptyString => Some [Some ""]
    | String _ _ => None
    end.
Proof.
  erewrite exec_anchored by (simpl; reflexivity).
  now destruct input.
Qed.

(** C9: when the tokenizer yields no token, the assembled pattern is
    [^$]; the match succeeds exactly when the input is the empty string,
    and a successful parse gives an empty resolved field set and a null
    zone. *)
Theorem C9_empty_format
  (untruncateYear : value -> value)
  (signedOffset : option string -> option string -> value)
  (parseMillis : value -> value)
  (parseFormat : string -> list Token)
  (locale : Locale) (input format : string) :
  parseFormat format = [] ->
  exists rawMatches matches result zone,
    explainFromTokens untruncateYear signedOffset parseMillis parseFormat
      locale input format
    = Return (Explained input [] "^$" rawMatches matches result zone)
    /\ (rawMatches <> None <-> input = "")
    /\ (rawMatches <> None -> result = Some [] /\ zone = None).
Proof.
  intros Htok. unfold explainFromTokens. rewrite Htok.
  cbn [compile_units bind buildRegex map fold_left].
  change ("^" ++ "" ++ "$") with "^$".
  assert (Hc : compile "^$" true
               = Return (mkRegexp (RSeq RBol (RSeq REol REmpty)) 0 true))
    by (vm_compute; reflexivity).
  rewrite Hc. cbn [bind]. unfold match_. rewrite exec_empty_pattern.
  destruct input as [|a input].
  - exists (Some [Some ""]), [], (Some []), None. simpl.
    split; [reflexivity|]. split; [|tauto].
    split; [reflexivity|discriminate].
  - exists None, [], (Some []), None. simpl.
    split; [reflexivity|]. split; [|tauto].
    split; [tauto|discriminate].
Qed.

Lemma C9_empty_format_witness :
  Collaborators.parseFormat "" = []
  /\ exists rawMatches matches result zone,
       Collaborators.explain Collaborators.en "" ""
       = Return (Explained "" [] "^$" rawMatches matches result zone)
       /\ (rawMatches <> None <-> "" = "")
       /\ (rawMatches <> None -> result = Some [] /\ zone = None).
Proof.
  split; [reflexivity|].
  apply (C9_empty_format ident Collaborators.signedOffset
           Collaborators.parseMillis Collaborators.parseFormat
           Collaborators.en "" "").
  reflexivity.
Defined.

(** ** The orchestrator *)

(** C1: when the tokens compile and the assembled pattern does not match
    the input, [explainFromTokens] throws nothing and returns null raw
    captures, an empty raw field map and a null zone; the resolved fields
    it returns are an empty object, not null: the test that guards
    [dateTimeFromMatches] looks at the raw field map, which is an object
    and so never false. *)
Theorem C1_failed_match
  (untruncateYear : value -> value)
  (signedOffset : option string -> option string -> value)
  (parseMillis : value -> value)
  (parseFormat : string -> list Token)
  (locale : Locale) (input format : string)
  (units handlers : list Unit) (regexString : string) (rx : regexp) :
  compile_units untruncateYear signedOffset (parseFormat format) locale []
  = Return (inr units) ->
  buildRegex units = Return (regexString, handlers) ->
  compile regexString true = Return rx ->
  exec rx input = None ->
  explainFromTokens untruncateYear signedOffset parseMillis parseFormat
    locale input format
  = Return (Explained input (parseFormat format) regexString None []
              (Some []) None).
Proof.
  intros Hunits Hbuild Hrx Hexec. unfold explainFromTokens.
  rewrite Hunits. cbn [bind]. rewrite Hbuild. cbn [bind]. rewrite Hrx.
  cbn [bind]. unfold match_. rewrite Hexec. reflexivity.
Qed.

Lemma C1_failed_match_witness :
  Collaborators.explain Collaborators.en "next year" "yyyy"
  = Return (Explained "next year" [mkToken false "yyyy"] "^(\d{4})$" None []
              (Some []) None).
Proof.
  apply (C1_failed_match ident Collaborators.signedOffset
           Collaborators.parseMillis Collaborators.parseFormat
           Collaborators.en "next year" "yyyy"
           [with_token (intUnit "\d{4}" ident) (mkToken false "yyyy")]
           [with_token (intUnit "\d{4}" ident) (mkToken false "yyyy")]
           "^(\d{4})$" (regexp_i "^(\d{4})$")).
  - reflexivity.
  - reflexivity.
  - vm_compute. reflexivity.
  - vm_compute. reflexivity.
Defined.

(** ** Literal tokens *)

(** C2: the unit of a literal token takes the literal's text as a pattern
    without escaping it.  The text [a+b] does not match itself and matches
    [aab]; a period matches any character; an opening parenthesis makes
    the compilation throw; a parenthesised literal adds a capture group
    that the unit does not declare, so the groups of the next unit are
    shifted. *)
Theorem C2_literal_not_escaped :
  literal_unit (mkToken true "a+b")
  = Return (mkUnit (Some "a+b") (deser (simple "")) None true None None)
  /\ matched (Collaborators.explain Collaborators.en "a+b" "'a+b'") = false
  /\ matched (Collaborators.explain Collaborators.en "aab" "'a+b'") = true
  /\ matched (Collaborators.explain Collaborators.en "10x30" "HH'.'mm") = true
  /\ matched (Collaborators.explain Collaborators.en "04x07x2023" "dd.MM.yyyy")
     = true
  /\ literal_unit (mkToken true "(") = Throw SyntaxError
  /\ Collaborators.explain Collaborators.en "(" "'('" = Throw SyntaxError
  /\ exec (regexp_i "^((x)?y)(Jan|Feb)$") "yJan"
     = Some [Some "yJan"; Some "y"; None; Some "Jan"]
  /\ Collaborators.explain Collaborators.en "yJan" "'(x)?y'MMM" = Throw TypeError.
Proof. repeat split; vm_compute; reflexivity. Qed.

(** ** Literals without pattern syntax *)

Lemma parse_term_plain (f : nat) (c : ascii) (r : string) (g : nat) :
  syntax_char c = false -> parse_quant r = None ->
  parse_term (S f) (String c r) g = Return (rchar c, r, g).
Proof.
  intros Hc Hq.
  destruct c as [[] [] [] [] [] [] [] []]; try discriminate Hc;
    cbn [parse_term parse_quant Ascii.eqb Bool.eqb orb andb];
    unfold quantified; rewrite Hq; reflexivity.
Qed.

Lemma parse_quant_plain (c : ascii) (r : string) :
  syntax_char c = false -> parse_quant (String c r) = None.
Proof.
  intros Hc. destruct c as [[] [] [] [] [] [] [] []]; try discriminate Hc;
    reflexivity.
Qed.

Lemma parse_quant_closes (tail : string) :
  closes tail = true -> parse_quant tail = None.
Proof.
  destruct tail as [|c t]; [reflexivity|]. simpl. intros H.
  apply Ascii.eqb_eq in H. now subst.
Qed.

Lemma parse_alt_step (f : nat) (c : ascii) (r : string) (g : nat) :
  syntax_char c = false ->
  parse_alt (S f) (String c r) g
  = (do (r1, rest, g1) <- parse_term f (String c r) g;
     do (r2, rest2, g2) <- parse_alt f rest g1;
     Return (RSeq r1 r2, rest2, g2)).
Proof.
  intros Hc. destruct c as [[] [] [] [] [] [] [] []]; try discriminate Hc;
    reflexivity.
Qed.

Lemma parse_alt_closes (f : nat) (tail : string) (g : nat) :
  closes tail = true -> parse_alt (S f) tail g = Return (REmpty, tail, g).
Proof.
  destruct tail as [|c t]; [reflexivity|]. simpl closes. intros H.
  apply Ascii.eqb_eq in H. now subst.
Qed.

(** A text without pattern syntax parses to its characters in a row. *)
Lemma parse_alt_plain (tail : string) :
  closes tail = true ->
  forall (s : string) (f g : nat),
    plain_text s = true -> String.length s < f ->
    parse_alt (S f) (s ++ tail) g = Return (chars_tree s, tail, g).
Proof.
  intros Htail. induction s as [|c s IH]; intros f g Hs Hf.
  - now apply parse_alt_closes.
  - simpl in Hs. apply andb_prop in Hs. destruct Hs as [Hc Hs].
    apply negb_true_iff in Hc. simpl in Hf.
    destruct f as [|f]; [lia|].
    change (String c s ++ tail) with (String c (s ++ tail)).
    rewrite (parse_alt_step (S f) c (s ++ tail) g Hc).
    rewrite (parse_term_plain f c (s ++ tail) g Hc).
    + cbn [bind]. rewrite (IH f g Hs) by lia. reflexivity.
    + destruct s as [|c' s']; [now apply parse_quant_closes|].
      simpl in Hs. apply andb_prop in Hs. destruct Hs as [Hc' _].
      apply negb_true_iff in Hc'. now apply parse_quant_plain.
Qed.

Lemma append_tail (s a b : string) : (s ++ a) ++ b = s ++ (a ++ b).
Proof. induction s as [|c s IH]; simpl; [reflexivity|]. now rewrite IH. Qed.

Lemma length_append (s t : string) :
  String.length (s ++ t) = String.length s + String.length t.
Proof. induction s as [|c s IH]; simpl; [reflexivity|]. now rewrite IH. Qed.

Lemma parse_disj_S (f : nat) (s : string) (g : nat) :
  parse_disj (S f) s g
  = (do (r1, rest, g1) <- parse_alt f s g;
     match rest with
     | String "|" rest' =>
         do (r2, rest2, g2) <- parse_disj f rest' g1;
         Return (RAlt r1 r2, rest2, g2)
     | _ => Return (r1, rest, g1)
     end).
Proof. reflexivity. Qed.

Lemma parse_term_group (f : nat) (r : string) (g : nat) :
  (forall t, r <> String "?" t) ->
  parse_term (S f) (String "(" r) g
  = (do (body, rest, g1) <- parse_disj f r (S g);
     match rest with
     | String ")" rest' => quantified (RGroup g body) g g1 rest'
     | _ => Throw SyntaxError
     end).
Proof.
  intros Hr. destruct r as [|c r]; [reflexivity|].
  destruct c as [[] [] [] [] [] [] [] []]; try reflexivity.
  exfalso. now apply (Hr r).
Qed.

Lemma plain_not_question (s tail : string) :
  plain_text s = true -> closes tail = true ->
  forall t, s ++ tail <> String "?" t.
Proof.
  intros Hs Htail t. destruct s as [|c s]; simpl.
  - destruct tail as [|c t']; [discriminate|]. simpl in Htail.
    apply Ascii.eqb_eq in Htail. subst. discriminate.
  - simpl in Hs. apply andb_prop in Hs. destruct Hs as [Hc _].
    intros H. injection H as -> _. discriminate.
Qed.

Lemma parse_alt_open (f : nat) (r : string) (g : nat) :
  parse_alt (S f) (String "(" r) g
  = (do (r1, rest, g1) <- parse_term f (String "(" r) g;
     do (r2, rest2, g2) <- parse_alt f rest g1;
     Return (RSeq r1 r2, rest2, g2)).
Proof. reflexivity. Qed.

Lemma parse_alt_bol (f : nat) (r : string) (g : nat) :
  parse_quant r = None ->
  parse_alt (S (S f)) (String "^" r) g
  = (do (r2, rest2, g2) <- parse_alt (S f) r g;
     Return (RSeq RBol r2, rest2, g2)).
Proof.
  intros Hq. cbn [parse_alt parse_term bind]. unfold assertion. rewrite Hq.
  reflexivity.
Qed.

(** The pattern [buildRegex] assembles from one such literal. *)
Lemma parse_wrapped (s : string) :
  plain_text s = true ->
  parse ("^" ++ ("" ++ "(" ++ s ++ ")") ++ "$")
  = Return (RSeq RBol (RSeq (RGroup 0 (chars_tree s)) (RSeq REol REmpty)), 1).
Proof.
  intros Hs.
  change ("^" ++ ("" ++ "(" ++ s ++ ")") ++ "$")
    with (String "^" (String "(" ((s ++ ")") ++ "$"))).
  rewrite append_tail. change (")" ++ "$") with ")$".
  unfold parse. cbn [String.length]. rewrite length_append. cbn [String.length].
  replace (3 * S (S (String.length s + 2)) + 4)
    with (S (S (S (S (S (S (3 * String.length s + 10))))))) by lia.
  assert (Hf : String.length s < 3 * String.length s + 10) by lia.
  revert Hf. generalize (3 * String.length s + 10). intros f Hf.
  rewrite parse_disj_S, parse_alt_bol by reflexivity.
  rewrite parse_alt_open.
  rewrite parse_term_group by (apply plain_not_question; [exact Hs|reflexivity]).
  rewrite parse_disj_S.
  rewrite (parse_alt_plain ")$" eq_refl s f 1 Hs Hf).
  reflexivity.
Qed.

Lemma append_empty (s : string) : s ++ "" = s.
Proof. induction s as [|c s IH]; simpl; [reflexivity|]. now rewrite IH. Qed.

Lemma parse_plain (s : string) :
  plain_text s = true -> parse s = Return (chars_tree s, 0).
Proof.
  intros Hs. unfold parse.
  replace (3 * String.length s + 4) with (S (S (3 * String.length s + 2))) by lia.
  rewrite parse_disj_S. rewrite <- (append_empty s) at 2.
  rewrite (parse_alt_plain "" eq_refl s _ 0 Hs) by lia. reflexivity.
Qed.

Lemma escape_source_plain (s : string) :
  plain_text s = true -> escape_source false s = s.
Proof.
  induction s as [|c s IH]; [reflexivity|]. simpl. intros H.
  apply andb_prop in H. destruct H as [Hc Hs]. apply negb_true_iff in Hc.
  specialize (IH Hs).
  destruct c as [[] [] [] [] [] [] [] []]; try discriminate Hc;
    cbn; now rewrite IH.
Qed.

Lemma source_of_plain (s : string) :
  plain_text s = true -> s <> "" -> source_of s = s.
Proof.
  intros Hs Hne. destruct s as [|c s]; [congruence|].
  now apply escape_source_plain.
Qed.

Lemma in_range_refl (a : ascii) : in_range a a a = true.
Proof. unfold in_range. now rewrite N.leb_refl. Qed.

(** The characters of a text in a row match that text. *)
Lemma m_chars (ic : bool) (s : string) :
  forall (i : nat) (rest : string) (c : caps) (k : cont),
    m ic (chars_tree s) i (s ++ rest) c k = k (i + String.length s) rest c.
Proof.
  induction s as [|a s IH]; intros i rest c k; simpl.
  - now rewrite Nat.add_0_r.
  - unfold set_mem. simpl. rewrite in_range_refl. simpl.
    rewrite IH. f_equal. lia.
Qed.

Lemma m_chars_all (ic : bool) (s : string) (i : nat) (c : caps) (k : cont) :
  m ic (chars_tree s) i s c k = k (i + String.length s) "" c.
Proof.
  pose proof (m_chars ic s i "" c k) as H. now rewrite append_empty in H.
Qed.

Lemma exec_wrapped (s : string) :
  exec (mkRegexp (RSeq RBol (RSeq (RGroup 0 (chars_tree s)) (RSeq REol REmpty)))
          1 true) s
  = Some [Some s; Some s].
Proof.
  erewrite exec_anchored by (simpl; reflexivity).
  unfold match_at. cbn [tree ignoreCase ngroups repeat].
  rewrite m_seq, m_bol, m_seq, m_group.
  rewrite m_chars_all.
  simpl. now rewrite Nat.sub_0_r, substring_all.
Qed.

(** X16, where C2 holds: a literal token whose text has no character of the
    pattern syntax compiles to that text, with no extra group and a
    deserializer that returns the matched text, and a format of that one
    token, matched against the text, succeeds with an empty raw field
    map. *)
Lemma plain_literal
  (untruncateYear : value -> value)
  (signedOffset : option string -> option string -> value)
  (parseMillis : value -> value)
  (parseFormat : string -> list Token)
  (locale : Locale) (format s : string) :
  plain_text s = true -> s <> "" ->
  parseFormat format = [mkToken true s] ->
  (exists unit,
     unitate untruncateYear signedOffset (mkToken true s) locale
     = Return (Some unit)
     /\ regex unit = Some s
     /\ extra_groups unit = 0
     /\ forall text rest, deser unit (Some text :: rest) = Return (VStr text))
  /\ explainFromTokens untruncateYear signedOffset parseMillis parseFormat
       locale s format
     = Return (Explained s [mkToken true s] ("^" ++ ("(" ++ s ++ ")") ++ "$")
                 (Some [Some s; Some s]) [] (Some []) None).
Proof.
  intros Hs Hne Htok.
  assert (Hu : unitate untruncateYear signedOffset (mkToken true s) locale
               = Return (Some (mkUnit (Some s) (deser (simple "")) None true None None))).
  { unfold unitate. cbn [literal]. unfold literal_unit. cbn [val].
    rewrite (parse_plain s Hs), (source_of_plain s Hs Hne). reflexivity. }
  split.
  - eexists. split; [exact Hu|]. repeat split.
  - unfold explainFromTokens. rewrite Htok.
    cbn [compile_units]. unfold unitForToken. rewrite Hu.
    cbn [bind with_token reason_of invalidReason regex deser groups unit_literal
         compile_units app].
    unfold buildRegex, with_token. cbn [map fold_left bind regex source].
    unfold compile. rewrite (parse_wrapped s Hs). cbn [bind].
    unfold match_. rewrite exec_wrapped. reflexivity.
Qed.

(** ** Enumerations *)

(** C3: [stripInsensitivities] and [fixListRegex] act on the first period
    only.  With the candidates [a.m.] and [p.m.] the text [am.] is matched
    and deserialized to -1, where stripping the periods would give the
    position 0, and [a.m] is not matched at all; a candidate with one
    period, [Jan.], is matched by [jan], [JAN.] and [Jan] alike. *)
Theorem C3_first_period_only :
  stripInsensitivities "a.m." = "am."
  /\ fixListRegex "a.m." = "a\.?m."
  /\ oneOf_deser ["a.m."; "p.m."] 0 [Some "am."] = Return (VNum (-1))
  /\ raw_map (Collaborators.explain Collaborators.dotted "11 am." "h a")
     = Some [("h", VNum 11); ("a", VNum (-1))]
  /\ matched (Collaborators.explain Collaborators.dotted "11 a.m" "h a") = false
  /\ raw_map (Collaborators.explain Collaborators.dotted "11 a.m." "h a")
     = Some [("h", VNum 11); ("a", VNum 0)]
  /\ raw_map (Collaborators.explain Collaborators.dotted "jan" "MMM")
     = Some [("M", VNum 1)]
  /\ raw_map (Collaborators.explain Collaborators.dotted "JAN." "MMM")
     = Some [("M", VNum 1)]
  /\ raw_map (Collaborators.explain Collaborators.dotted "Jan" "MMM")
     = Some [("M", VNum 1)].
Proof. repeat split; vm_compute; reflexivity. Qed.

(** ** Enumerations with one period at most *)

Lemma strip_periods_none (s : string) : periods s = 0 -> strip_periods s = s.
Proof.
  induction s as [|a s IH]; simpl; [reflexivity|].
  destruct (Ascii.eqb a "."); simpl; [discriminate|].
  intros H. now rewrite IH.
Qed.

Lemma stripInsensitivities_normalize (s : string) :
  periods s <= 1 -> stripInsensitivities s = normalize s.
Proof.
  unfold stripInsensitivities, normalize. intros H. f_equal.
  induction s as [|a s IH]; simpl in *; [reflexivity|].
  destruct (Ascii.eqb a "."); simpl in *.
  - symmetry. apply strip_periods_none. lia.
  - now rewrite IH.
Qed.

Lemma findIndex_ext {A : Type} (p q : A -> bool) (l : list A) :
  Forall (fun x => p x = q x) l -> findIndex p l = findIndex q l.
Proof.
  induction 1 as [|x l Hx _ IH]; simpl; [reflexivity|]. now rewrite Hx, IH.
Qed.

(** X14, where C3 holds: when the matched text and every candidate have one
    period at most, the deserializer returns the position of the first
    candidate with the same normal form (periods removed, letters in lower
    case, those of the Latin-1 Supplement among them), plus the origin. *)
Lemma oneOf_deser_normalized (strings : list string) (startIndex : Z)
  (text : string) (rest : list (option string)) :
  Forall (fun i => periods i <= 1) strings -> periods text <= 1 ->
  oneOf_deser strings startIndex (Some text :: rest)
  = Return (VNum (findIndex
                    (fun i => String.eqb (normalize text) (normalize i)) strings
                  + startIndex)).
Proof.
  intros Hl Ht. destruct strings as [|x l]; [reflexivity|].
  unfold oneOf_deser. cbn [first stripInsensitivities_opt bind].
  do 2 f_equal. f_equal. rewrite (stripInsensitivities_normalize text Ht).
  apply findIndex_ext. revert Hl. apply Forall_impl. intros i Hi.
  now rewrite (stripInsensitivities_normalize i Hi).
Qed.

(** ** Unsupported tokens *)

Section Units.

Variable untruncateYear : value -> value.
Variable signedOffset : option string -> option string -> value.

Lemma oneOf_valid (strings : option (list string)) (startIndex : Z) (u : Unit) :
  oneOf strings startIndex = Return (Some u) -> invalidReason u = None.
Proof.
  unfold oneOf. destruct strings as [l|]; [|discriminate].
  destruct (parse _); simpl; [|discriminate].
  intros H. injection H as <-. reflexivity.
Qed.

Lemma literal_valid (t : Token) (u : Unit) :
  (do u' <- literal_unit t; Return (Some u')) = Return (Some u) ->
  invalidReason u = None.
Proof.
  unfold literal_unit. destruct (parse _); simpl; [|discriminate].
  intros H. injection H as <-. reflexivity.
Qed.

(** A unit that [unitate] returns carries no invalid reason. *)
Lemma unitate_valid (t : Token) (loc : Locale) (u : Unit) :
  unitate untruncateYear signedOffset t loc = Return (Some u) ->
  invalidReason u = None.
Proof.
  unfold unitate. destruct (literal t); [apply literal_valid|].
  repeat match goal with
         | |- context [String.eqb ?v ?c] => destruct (String.eqb v c); simpl orb; cbv iota
         end;
    first [ apply oneOf_valid | apply literal_valid
          | intros H; injection H as <-; reflexivity ].
Qed.

(** The loop stops with the reason at the first token without names, when
    the tokens before it compile. *)
Lemma compile_units_invalid (loc : Locale) (t : Token) (post : list Token) :
  unitate untruncateYear signedOffset t loc = Return None ->
  forall (pre : list Token) (units : list Unit),
    Forall (fun t' => exists u,
              unitate untruncateYear signedOffset t' loc = Return (Some u)) pre ->
    compile_units untruncateYear signedOffset (pre ++ t :: post) loc units
    = Return (inl MISSING_FTP).
Proof.
  intros Ht. induction pre as [|t' pre IH]; intros units Hpre; simpl.
  - unfold unitForToken. rewrite Ht. reflexivity.
  - inversion Hpre as [|? ? [u Hu] Hrest]; subst.
    unfold unitForToken. rewrite Hu. cbn [bind].
    unfold reason_of, with_token. cbn [invalidReason].
    rewrite (unitate_valid t' loc u Hu). now apply IH.
Qed.

End Units.

(** X15: for a format whose tokens before the first unsupported one compile,
    the explanation carries the input, the tokens and the reason, and
    nothing else. *)
Lemma unsupported_token_invalid
  (untruncateYear : value -> value)
  (signedOffset : option string -> option string -> value)
  (parseMillis : value -> value)
  (parseFormat : string -> list Token)
  (locale : Locale) (input format : string)
  (pre post : list Token) (t : Token) :
  parseFormat format = (pre ++ t :: post)%list ->
  Forall (fun t' => exists u,
            unitate untruncateYear signedOffset t' locale = Return (Some u)) pre ->
  unitate untruncateYear signedOffset t locale = Return None ->
  explainFromTokens untruncateYear signedOffset parseMillis parseFormat
    locale input format
  = Return (Invalid input (parseFormat format) MISSING_FTP).
Proof.
  intros Htok Hpre Ht. unfold explainFromTokens. rewrite Htok.
  now rewrite (compile_units_invalid untruncateYear signedOffset locale t post Ht pre []).
Qed.

(** C5: a literal that is not a valid pattern, standing before the token
    whose names the locale cannot supply, makes [explainFromTokens] throw
    where the reason was to be returned; without such a literal the
    reason is returned. *)
Theorem C5_unsupported_after_literal :
  unitate ident Collaborators.signedOffset (mkToken false "EEE") Collaborators.bare
  = Return None
  /\ Collaborators.explain Collaborators.bare "(Mon) 4" "(EEE) d"
     = Throw SyntaxError
  /\ Collaborators.explain Collaborators.bare "Mon 4" "EEE d"
     = Return (Invalid "Mon 4"
                 [mkToken false "EEE"; mkToken false " "; mkToken false "d"]
                 MISSING_FTP).
Proof. repeat split; vm_compute; reflexivity. Qed.

(** ** Offsets *)

Lemma caps_eqb_eq (a b : list (option string)) : caps_eqb a b = true -> a = b.
Proof.
  revert b. induction a as [|[x|] a IH]; intros [|[y|] b]; simpl;
    try discriminate; try reflexivity.
  - intros H. apply andb_prop in H. destruct H as [H1 H2].
    apply String.eqb_eq in H1. subst. f_equal. now apply IH.
  - intros H. f_equal. now apply IH.
Qed.

Lemma result_eqb_eq (a b : option (list (option string))) :
  result_eqb a b = true -> a = b.
Proof.
  destruct a, b; simpl; try discriminate; [|reflexivity].
  intros H. f_equal. now apply caps_eqb_eq.
Qed.

Lemma digit_in (a : ascii) : is_digit a = true -> In a digit_chars.
Proof.
  destruct a as [[] [] [] [] [] [] [] []]; try discriminate; intros _;
    simpl; tauto.
Qed.

Lemma two_digits_in (s : string) : digit_run 2 2 s = true -> In s two_digits.
Proof.
  unfold digit_run. intros H.
  destruct s as [|a [|b [|c s]]]; simpl in H;
    rewrite ?andb_false_r, ?andb_true_r in H; try discriminate.
  apply andb_prop in H. destruct H as [Ha Hb].
  unfold two_digits. apply in_flat_map.
  exists a. split; [now apply digit_in|].
  apply in_map_iff. exists b. split; [reflexivity|now apply digit_in].
Qed.

Lemma hour_text_in (h : string) : is_hour_text h = true -> In h hour_texts.
Proof.
  unfold is_hour_text. destruct h as [|sg d]; [discriminate|].
  intros H. apply andb_prop in H. destruct H as [Hsg Hd].
  unfold hour_texts. apply in_flat_map. exists sg. split.
  - apply orb_prop in Hsg. destruct Hsg as [H|H]; apply Ascii.eqb_eq in H;
      subst; simpl; tauto.
  - apply in_map, in_or_app.
    destruct d as [|a [|b d]].
    + discriminate.
    + left. apply in_map_iff. exists a. split; [reflexivity|].
      apply digit_in. unfold digit_run in Hd. simpl in Hd.
      now rewrite !andb_true_r in Hd.
    + right. apply two_digits_in. unfold digit_run in *.
      destruct d; [exact Hd|]. simpl in Hd.
      rewrite !andb_false_r in Hd. discriminate.
Qed.

Lemma offset_checks :
  forallb (fun h => forallb (offset_check offset_colon_rx ":" h) two_digits)
    hour_texts = true
  /\ forallb (fun h => forallb (offset_check offset_bare_rx "" h) two_digits)
       hour_texts = true.
Proof. split; vm_compute; reflexivity. Qed.

Lemma offset_captures (rx : regexp) (sep h mi : string) :
  forallb (fun h => forallb (offset_check rx sep h) two_digits) hour_texts = true ->
  is_hour_text h = true -> is_minute_text mi = true ->
  exec rx (h ++ sep ++ mi)
  = Some [Some (h ++ sep ++ mi); Some (h ++ sep ++ mi); Some h; Some mi]
  /\ exec rx h = Some [Some h; Some h; Some h; None].
Proof.
  intros Hall Hh Hmi. rewrite forallb_forall in Hall.
  specialize (Hall h (hour_text_in h Hh)). rewrite forallb_forall in Hall.
  specialize (Hall mi (two_digits_in mi Hmi)).
  unfold offset_check in Hall. apply andb_prop in Hall. destruct Hall as [H1 H2].
  split; now apply result_eqb_eq.
Qed.

Lemma captures_exec (u : Unit) (src : string) (rx : regexp) (s : string) :
  regex u = Some src ->
  compile ("^" ++ ("" ++ "(" ++ src ++ ")") ++ "$") true = Return rx ->
  captures u s = exec rx s.
Proof.
  intros Hsrc Hc. unfold captures, buildRegex.
  cbn [map fold_left bind]. rewrite Hsrc. cbn [source bind]. now rewrite Hc.
Qed.

(** C4, as amended: each offset token ([Z], [ZZ], [ZZZ]) compiles to a
    sub-pattern that captures a sign-prefixed hour of one or two digits
    and an optional minute of two digits (after a colon for [Z] and [ZZ],
    bare for [ZZZ]); the descriptor declares two extra capture groups
    beyond the primary one, the hour and the minute; and its deserializer
    hands these two groups to the sign/magnitude decoder.  With the
    decoder of the spec, [+05:30] gives 330 minutes and [-0800] gives
    -480. *)
Theorem C4_offset_units
  (untruncateYear : value -> value)
  (signedOffset : option string -> option string -> value)
  (loc : Locale) (v : string) :
  In v ["Z"; "ZZ"; "ZZZ"] ->
  let bare := String.eqb v "ZZZ" in
  (exists unit,
     unitate untruncateYear signedOffset (mkToken false v) loc
     = Return (Some unit)
     /\ regex unit
        = Some (if bare then "([+-]\d{1,2})(\d{2})?"
                else "([+-]\d{1,2})(?::(\d{2}))?")
     /\ extra_groups unit = 2
     /\ (forall w h mi rest,
           deser unit (w :: h :: mi :: rest) = Return (signedOffset h mi))
     /\ (forall h mi,
           is_hour_text h = true -> is_minute_text mi = true ->
           let whole := h ++ (if bare then "" else ":") ++ mi in
           captures unit whole
           = Some [Some whole; Some whole; Some h; Some mi]
           /\ captures unit h = Some [Some h; Some h; Some h; None]))
  /\ raw_map (Collaborators.explain Collaborators.en "+05:30" "ZZ")
     = Some [("Z", VNum 330)]
  /\ raw_map (Collaborators.explain Collaborators.en "-0800" "ZZZ")
     = Some [("Z", VNum (-480))].
Proof.
  intros Hin bare. split; [|split; vm_compute; reflexivity].
  destruct offset_checks as [Hcolon Hbare].
  assert (Hc1 : compile ("^" ++ ("" ++ "(" ++ "([+-]\d{1,2})(?::(\d{2}))?" ++ ")") ++ "$") true
                = Return offset_colon_rx) by (vm_compute; reflexivity).
  assert (Hc2 : compile ("^" ++ ("" ++ "(" ++ "([+-]\d{1,2})(\d{2})?" ++ ")") ++ "$") true
                = Return offset_bare_rx) by (vm_compute; reflexivity).
  subst bare. simpl in Hin. destruct Hin as [<-|[<-|[<-|[]]]].
  - change (String.eqb "Z" "ZZZ") with false. cbv iota.
    exists (offset signedOffset "([+-]\d{1,2})(?::(\d{2}))?" 2).
    do 4 (split; [reflexivity|]). intros h mi Hh Hmi.
    rewrite !(captures_exec (offset signedOffset "([+-]\d{1,2})(?::(\d{2}))?" 2)
                "([+-]\d{1,2})(?::(\d{2}))?" offset_colon_rx _ eq_refl Hc1).
    now apply offset_captures.
  - change (String.eqb "ZZ" "ZZZ") with false. cbv iota.
    exists (offset signedOffset "([+-]\d{1,2})(?::(\d{2}))?" 2).
    do 4 (split; [reflexivity|]). intros h mi Hh Hmi.
    rewrite !(captures_exec (offset signedOffset "([+-]\d{1,2})(?::(\d{2}))?" 2)
                "([+-]\d{1,2})(?::(\d{2}))?" offset_colon_rx _ eq_refl Hc1).
    now apply offset_captures.
  - change (String.eqb "ZZZ" "ZZZ") with true. cbv iota.
    exists (offset signedOffset "([+-]\d{1,2})(\d{2})?" 2).
    do 4 (split; [reflexivity|]). intros h mi Hh Hmi.
    rewrite !(captures_exec (offset signedOffset "([+-]\d{1,2})(\d{2})?" 2)
                "([+-]\d{1,2})(\d{2})?" offset_bare_rx _ eq_refl Hc2).
    now apply offset_captures.
Qed.

Lemma C4_offset_units_witness :
  In "ZZ" ["Z"; "ZZ"; "ZZZ"]
  /\ exists unit,
       unitate ident Collaborators.signedOffset (mkToken false "ZZ")
         Collaborators.en = Return (Some unit)
       /\ extra_groups unit = 2
       /\ captures unit "+05:30"
          = Some [Some "+05:30"; Some "+05:30"; Some "+05"; Some "30"]
       /\ deser unit [Some "+05:30"; Some "+05"; Some "30"]
          = Return (VNum 330).
Proof.
  assert (Hin : In "ZZ" ["Z"; "ZZ"; "ZZZ"]) by (simpl; tauto).
  split; [exact Hin|].
  destruct (C4_offset_units ident Collaborators.signedOffset Collaborators.en
              "ZZ" Hin) as [(unit & Hu & _ & Hg & Hd & Hc) _].
  exists unit. split; [exact Hu|]. split; [exact Hg|]. split.
  - apply (Hc "+05" "30"); reflexivity.
  - rewrite Hd. reflexivity.
Defined.

(** C4, as stated, fails: the offset descriptors declare two extra
    capture groups, not one. *)
Lemma C4_counterexample :
  ~ (forall v, In v ["Z"; "ZZ"; "ZZZ"] ->
       exists unit,
         unitate ident Collaborators.signedOffset (mkToken false v)
           Collaborators.en = Return (Some unit)
         /\ extra_groups unit = 1).
Proof.
  intros H. destruct (H "Z") as (unit & Hu & Hg); [simpl; tauto|].
  assert (Hz : unitate ident Collaborators.signedOffset (mkToken false "Z")
                 Collaborators.en
               = Return (Some (offset Collaborators.signedOffset
                                 "([+-]\d{1,2})(?::(\d{2}))?" 2)))
    by reflexivity.
  rewrite Hz in Hu. injection Hu as <-.
  change (2 = 1) in Hg. discriminate.
Qed.

(** ** The end-to-end examples of the specification *)

Example parse_iso_date :
  Collaborators.explain Collaborators.en "2023-07-04" "yyyy-MM-dd"
  = Return
      (Explained "2023-07-04"
         [mkToken false "yyyy"; mkToken false "-"; mkToken false "MM";
          mkToken false "-"; mkToken false "dd"]
         "^(\d{4})(-)(\d{2})(-)(\d{2})$"
         (Some [Some "2023-07-04"; Some "2023"; Some "-"; Some "07"; Some "-";
                Some "04"])
         [("y", VNum 2023); ("M", VNum 7); ("d", VNum 4)]
         (Some [("year", VNum 2023); ("month", VNum 7); ("day", VNum 4)])
         None).
Proof. vm_compute. reflexivity. Qed.

Example parse_twelve_hour :
  match Collaborators.explain Collaborators.en "2:15 PM" "h:mm a" with
  | Return (Explained _ _ _ _ _ result zone) =>
      result = Some [("hour", VNum 14); ("minute", VNum 15)] /\ zone = None
  | _ => False
  end.
Proof. vm_compute. split; reflexivity. Qed.

Example parse_with_offset :
  match Collaborators.explain Collaborators.en "2023-07-04T10:00:00+02:00"
          "yyyy-MM-dd'T'HH:mm:ssZZ" with
  | Return (Explained _ _ _ _ _ result zone) =>
      result = Some [("year", VNum 2023); ("month", VNum 7); ("day", VNum 4);
                     ("hour", VNum 10); ("minute", VNum 0); ("second", VNum 0)]
      /\ zone = Some (FixedOffsetZone (VNum 120))
  | _ => False
  end.
Proof. vm_compute. split; reflexivity. Qed.

Example parse_before_christ :
  match Collaborators.explain Collaborators.en "44 BC" "y G" with
  | Return (Explained _ _ _ _ matches result _) =>
      matches = [("y", VNum (-44)); ("G", VNum 0)]
      /\ result = Some [("year", VNum (-44))]
  | _ => False
  end.
Proof. vm_compute. split; reflexivity. Qed.

(** * Further properties *)

(** ** The resolved fields *)

Lemma toField_names (k f : string) : toField k = Some f -> In f field_names.
Proof.
  unfold toField.
  repeat match goal with
         | |- context [String.eqb k ?c] =>
             destruct (String.eqb k c); cbn [orb]; cbv iota
         end;
    intros H; try discriminate H; injection H as <-; simpl; tauto.
Qed.

Lemma toField_millisecond (k : string) :
  toField k = Some "millisecond" -> k = "S".
Proof. unfold toField. by_key k. simpl. discriminate. Qed.

Lemma keys_adjusted (parseMillis : value -> value) (matches : obj) (k : string) :
  In k (keys (adjust_millis parseMillis (adjust_era (adjust_hour matches))))
  <-> In k (keys matches)
      \/ (k = "S" /\ isUndefined (get "u" matches) = false).
Proof.
  unfold adjust_millis.
  rewrite (get_adjust_era (adjust_hour matches) "u"),
    (get_adjust_hour matches "u") by discriminate.
  destruct (isUndefined (get "u" matches)); simpl.
  - rewrite keys_adjust_era, keys_adjust_hour. intuition discriminate.
  - rewrite keys_set, keys_adjust_era, keys_adjust_hour. intuition.
Qed.

Lemma collect_keys (matches : obj) (ks : list string) :
  forall r0 : obj,
    let r := fold_left
               (fun r k =>
                  match toField k with
                  | Some f => set f (get k matches) r
                  | None => r
                  end) ks r0 in
    (NoDup (keys r0) -> NoDup (keys r))
    /\ forall f, In f (keys r) <->
         In f (keys r0) \/ exists k, In k ks /\ toField k = Some f.
Proof.
  induction ks as [|k ks IH]; intros r0; simpl.
  - split; [tauto|]. intros f. split; [tauto|]. intros [H|(k & [] & _)]. exact H.
  - destruct (IH (match toField k with
                  | Some f => set f (get k matches) r0
                  | None => r0
                  end)) as [Hnd Hin].
    split.
    + intros H. apply Hnd. destruct (toField k); [now apply keys_set_NoDup|exact H].
    + intros f. rewrite Hin. destruct (toField k) as [f'|] eqn:E.
      * rewrite keys_set. split.
        -- intros [[->|H]|(k' & Hk' & Hf)]; [right; exists k; auto|tauto|].
           right. exists k'. auto.
        -- intros [H|(k' & [<-|Hk'] & Hf)]; [tauto| |right; exists k'; auto].
           left. left. congruence.
      * split.
        -- intros [H|(k' & Hk' & Hf)]; [tauto|right; exists k'; auto].
        -- intros [H|(k' & [<-|Hk'] & Hf)]; [tauto|congruence|right; exists k'; auto].
Qed.

(** X1: the resolved fields hold each calendar field once at most, and
    nothing else: a name is a key of the result exactly when [toField]
    gives it for a key of the raw field map, or for the key [S] that a
    defined [u] adds.  The era and meridiem flags, the zone keys and [u]
    itself never get into the result. *)
Theorem resolved_fields_only (parseMillis : value -> value) (matches : obj) :
  NoDup (keys (resolved parseMillis matches))
  /\ (forall f, In f (keys (resolved parseMillis matches)) ->
        In f field_names)
  /\ (forall f, In f (keys (resolved parseMillis matches)) <->
        exists k, toField k = Some f
                  /\ (In k (keys matches)
                      \/ (k = "S" /\ isUndefined (get "u" matches) = false))).
Proof.
  unfold resolved, dateTimeFromMatches, collect. cbn [fst].
  destruct (collect_keys
              (adjust_millis parseMillis (adjust_era (adjust_hour matches)))
              (keys (adjust_millis parseMillis (adjust_era (adjust_hour matches))))
              []) as [Hnd Hin].
  cbv zeta in Hnd, Hin.
  assert (Hiff : forall f,
             In f (keys (fold_left
                           (fun r k =>
                              match toField k with
                              | Some f0 =>
                                  set f0
                                    (get k (adjust_millis parseMillis
                                              (adjust_era (adjust_hour matches)))) r
                              | None => r
                              end)
                           (keys (adjust_millis parseMillis
                                    (adjust_era (adjust_hour matches)))) []))
             <-> exists k, toField k = Some f
                           /\ (In k (keys matches)
                               \/ (k = "S" /\ isUndefined (get "u" matches) = false))).
  { intros f. rewrite Hin. simpl. split.
    - intros [[]|(k & Hk & Hf)]. exists k. split; [exact Hf|].
      now apply (keys_adjusted parseMillis matches k).
    - intros (k & Hf & Hk). right. exists k. split; [|exact Hf].
      now apply (keys_adjusted parseMillis matches k). }
  split; [apply Hnd; constructor|]. split; [|exact Hiff].
  intros f Hf. apply Hiff in Hf. destruct Hf as (k & Hk & _).
  now apply (toField_names k f).
Qed.

(** X2: the resolved millisecond is [parseMillis] of the fractional
    second [u] whenever [u] is defined, whatever the token [S] gave;
    without [u] it is the value under [S]. *)
Theorem resolved_millisecond (parseMillis : value -> value) (matches : obj) :
  get "millisecond" (resolved parseMillis matches)
  = if isUndefined (get "u" matches) then get "S" matches
    else parseMillis (get "u" matches).
Proof.
  unfold resolved, dateTimeFromMatches. cbn [fst]. rewrite collect_get.
  set (m1 := adjust_millis parseMillis (adjust_era (adjust_hour matches))).
  assert (Hu : get "u" (adjust_era (adjust_hour matches)) = get "u" matches)
    by (rewrite get_adjust_era, get_adjust_hour by discriminate; reflexivity).
  assert (HS : get "S" m1
               = if isUndefined (get "u" matches) then get "S" matches
                 else parseMillis (get "u" matches)).
  { unfold m1, adjust_millis. rewrite Hu.
    destruct (isUndefined (get "u" matches)); simpl.
    - rewrite get_adjust_era, get_adjust_hour by discriminate. reflexivity.
    - apply get_set_same. }
  destruct (in_dec string_dec "S" (keys m1)) as [Hin|Hnin].
  - rewrite (last_source_unique "millisecond" "S" (keys m1)
               toField_millisecond eq_refl Hin). exact HS.
  - rewrite last_source_none.
    + rewrite <- HS. symmetry. now apply get_absent.
    + intros k Hk Hf. apply toField_millisecond in Hf. now subst.
Qed.

(** X3: last key wins, and only [h], [y] and [S] are ever rewritten: when
    a key [k] other than these three is the last key of the raw field map
    that [toField] sends to a field, the resolved field is the raw value
    under [k].  So a 24-hour [H] is not shifted by a meridiem flag, and of
    [M] and [L] the later one gives the month. *)
Theorem resolved_last_key (parseMillis : value -> value) (matches : obj)
  (k f : string) (pre post : list string) :
  keys matches = (pre ++ k :: post)%list ->
  toField k = Some f ->
  (forall k', In k' post -> toField k' <> Some f) ->
  k <> "h" -> k <> "y" -> k <> "S" ->
  get f (resolved parseMillis matches) = get k matches.
Proof.
  intros Hkeys Hf Hpost Hh Hy HS.
  assert (Hms : f <> "millisecond").
  { intros ->. now apply toField_millisecond in Hf. }
  rewrite (resolved_get parseMillis matches f Hms), Hkeys,
    (last_source_last f k pre post Hf Hpost).
  now rewrite get_adjust_millis, get_adjust_era, get_adjust_hour.
Qed.

Lemma resolved_last_key_witness :
  let matches := [("M", VNum 3); ("H", VNum 9); ("L", VNum 7); ("a", VNum 1)] in
  get "month" (resolved Collaborators.parseMillis matches) = VNum 7
  /\ get "hour" (resolved Collaborators.parseMillis matches) = VNum 9.
Proof.
  intros matches. split.
  - apply (resolved_last_key Collaborators.parseMillis matches "L" "month"
             ["M"; "H"] ["a"]); try reflexivity; try discriminate.
    intros k' [<-|[]]. discriminate.
  - apply (resolved_last_key Collaborators.parseMillis matches "H" "hour"
             ["M"] ["L"; "a"]); try reflexivity; try discriminate.
    intros k' [<-|[<-|[]]]; discriminate.
Defined.

(** ** The units of the symbolic tokens *)

Lemma digit_match (s : string) :
  exec (mkRegexp digit_tree 1 true) s
  = if digit_run 1 1 s then Some [Some s; Some s] else None.
Proof.
  unfold digit_tree. erewrite exec_anchored by (simpl; reflexivity).
  unfold match_at, digit_run. destruct s as [|a [|b s]]; simpl.
  - reflexivity.
  - unfold set_mem. simpl. now destruct (is_digit a).
  - unfold set_mem. simpl. rewrite !andb_false_r. now destruct (is_digit a).
Qed.

Lemma accepts_digit (u : Unit) (src : string) (s : string) :
  regex u = Some src ->
  compile ("^" ++ ("" ++ "(" ++ src ++ ")") ++ "$") true
  = Return (mkRegexp digit_tree 1 true) ->
  accepts u s = digit_run 1 1 s.
Proof.
  intros Hsrc Hc. unfold accepts, buildRegex.
  cbn [map fold_left bind]. rewrite Hsrc. cbn [source bind].
  rewrite Hc, digit_match. now destruct (digit_run 1 1 s).
Qed.

(** X4: each of the thirty codes that [unitate] compiles to a run of
    digits accepts, as a whole input, exactly the runs of digits whose
    length lies between the two bounds of its pattern: a text with a digit
    less or more, or with another character, is refused. *)
Theorem integer_widths
  (untruncateYear : value -> value)
  (signedOffset : option string -> option string -> value)
  (loc : Locale) (v : string) (lo hi : nat) :
  In (v, (lo, hi)) int_widths ->
  exists unit,
    unitate untruncateYear signedOffset (mkToken false v) loc
    = Return (Some unit)
    /\ forall s, accepts unit s = digit_run lo hi s.
Proof.
  intros Hin. unfold int_widths in Hin. simpl in Hin.
  repeat (destruct Hin as [Hin|Hin];
          [injection Hin as <- <- <-; eexists; split; [reflexivity|];
           intros s;
           first [ eapply accepts_digits;
                   [reflexivity|vm_compute; reflexivity|lia]
                 | eapply accepts_digit; [reflexivity|vm_compute; reflexivity] ]
          |]).
  destruct Hin.
Qed.

Lemma integer_widths_witness :
  In ("MM", (2, 2)) int_widths
  /\ exists unit,
       unitate ident Collaborators.signedOffset (mkToken false "MM")
         Collaborators.en = Return (Some unit)
       /\ accepts unit "07" = true
       /\ accepts unit "7" = false
       /\ accepts unit "007" = false
       /\ accepts unit "o7" = false.
Proof.
  assert (Hin : In ("MM", (2, 2)) int_widths) by (simpl; tauto).
  split; [exact Hin|].
  destruct (integer_widths ident Collaborators.signedOffset Collaborators.en
              "MM" 2 2 Hin) as (unit & Hu & Hacc).
  exists unit. split; [exact Hu|]. rewrite !Hacc. repeat split.
Defined.

Lemma read_int_decimal (s : string) :
  string_forallb is_digit s = true ->
  forall acc, read_int 10 s acc = decimal s acc.
Proof.
  induction s as [|a s IH]; intros Hs acc; [reflexivity|].
  simpl in Hs. apply andb_prop in Hs. destruct Hs as [Ha Hs].
  cbn [read_int decimal]. unfold digit_val. rewrite Ha.
  assert (Hlt : (Z.of_N (code a) - 48 <? 10)%Z = true).
  { destruct a as [[] [] [] [] [] [] [] []]; try discriminate Ha; reflexivity. }
  rewrite Hlt. now apply IH.
Qed.

Lemma decimal_bounds (s : string) :
  string_forallb is_digit s = true ->
  forall acc,
    (10 ^ Z.of_nat (String.length s) * acc <= decimal s acc
     < 10 ^ Z.of_nat (String.length s) * (acc + 1))%Z.
Proof.
  induction s as [|a s IH]; intros Hs acc.
  - cbn [decimal String.length Z.of_nat]. rewrite Z.pow_0_r. lia.
  - simpl in Hs. apply andb_prop in Hs. destruct Hs as [Ha Hs].
    cbn [decimal String.length]. rewrite Nat2Z.inj_succ, Z.pow_succ_r by lia.
    assert (Hd : (0 <= Z.of_N (code a) - 48 <= 9)%Z).
    { destruct a as [[] [] [] [] [] [] [] []]; try discriminate Ha;
        vm_compute; split; discriminate. }
    specialize (IH Hs (10 * acc + (Z.of_N (code a) - 48))%Z).
    assert (Hp : (0 < 10 ^ Z.of_nat (String.length s))%Z)
      by (apply Z.pow_pos_nonneg; lia).
    nia.
Qed.

(** An integer of at most 53 bits is a double. *)
Lemma round_double_small (z : Z) :
  (Z.abs z <= 2 ^ 53)%Z -> round_double z = z.
Proof.
  intros Hz. unfold round_double.
  destruct (Z.eq_dec (Z.abs z) (2 ^ 53)) as [E|E].
  - destruct (Z.abs_spec z) as [[_ Ha]|[_ Ha]]; rewrite Ha in E.
    + subst z. vm_compute. reflexivity.
    + assert (z = - 2 ^ 53)%Z as -> by lia. vm_compute. reflexivity.
  - assert (Hlog : (Z.log2 (Z.abs z) - 52 <= 0)%Z).
    { destruct (Z.eq_dec (Z.abs z) 0) as [E0|E0].
      - rewrite E0. vm_compute. discriminate.
      - assert (Z.log2 (Z.abs z) < 53)%Z; [|lia].
        apply Z.log2_lt_pow2; lia. }
    apply Z.leb_le in Hlog. now rewrite Hlog.
Qed.

Lemma number_of_small (z : Z) :
  (Z.abs z <= 2 ^ 53)%Z -> number_of z = VNum z.
Proof.
  intros Hz. unfold number_of. rewrite (round_double_small z Hz).
  assert (H : (Z.abs z <? 2 ^ 1024)%Z = true); [|now rewrite H].
  apply Z.ltb_lt. eapply Z.le_lt_trans; [exact Hz|].
  apply Z.pow_lt_mono_r; lia.
Qed.

Lemma decimal_15 (s : string) :
  string_forallb is_digit s = true -> String.length s <= 15 ->
  (0 <= decimal s 0 <= 2 ^ 53)%Z.
Proof.
  intros Hs Hl. pose proof (decimal_bounds s Hs 0) as H.
  assert (Hp : (10 ^ Z.of_nat (String.length s) <= 10 ^ 15)%Z)
    by (apply Z.pow_le_mono_r; lia).
  assert (H15 : (10 ^ 15 <= 2 ^ 53)%Z) by (vm_compute; discriminate).
  lia.
Qed.

(** From 2^1024 on the nearest double is out of range. *)
Lemma round_double_lower (z : Z) :
  (0 < z)%Z -> (2 ^ Z.log2 z <= round_double z)%Z.
Proof.
  intros Hz. unfold round_double. rewrite (Z.abs_eq z) by lia.
  pose proof (Z.log2_spec z Hz) as [Hlo _].
  destruct (Z.leb_spec (Z.log2 z - 52) 0) as [He|He]; [exact Hlo|].
  set (e := (Z.log2 z - 52)%Z) in *.
  rewrite Z.sgn_pos by lia. rewrite Z.mul_1_l.
  rewrite !Z.shiftl_mul_pow2, Z.shiftr_div_pow2 by lia.
  assert (Hp : (0 < 2 ^ e)%Z) by (apply Z.pow_pos_nonneg; lia).
  assert (Hsplit : (2 ^ Z.log2 z = 2 ^ 52 * 2 ^ e)%Z).
  { rewrite <- Z.pow_add_r by lia. f_equal. unfold e. lia. }
  assert (Hq : (2 ^ 52 <= z / 2 ^ e)%Z).
  { apply Z.div_le_lower_bound; [exact Hp|]. rewrite Z.mul_comm, <- Hsplit.
    exact Hlo. }
  rewrite Hsplit.
  apply Z.mul_le_mono_nonneg_r; [lia|].
  destruct (_ <? _)%Z; [exact Hq|].
  destruct (_ <? _)%Z; [lia|].
  destruct (Z.even _); lia.
Qed.

Lemma number_of_large (z : Z) :
  (2 ^ 1024 <= z)%Z -> number_of z = VInf false.
Proof.
  intros Hz. unfold number_of.
  assert (Hpos : (0 < z)%Z).
  { assert (0 < 2 ^ 1024)%Z by (apply Z.pow_pos_nonneg; lia). lia. }
  pose proof (round_double_lower z Hpos) as Hr.
  assert (Hl : (1024 <= Z.log2 z)%Z).
  { apply Z.log2_le_pow2; [exact Hpos|exact Hz]. }
  assert (Hm : (2 ^ 1024 <= 2 ^ Z.log2 z)%Z) by (apply Z.pow_le_mono_r; lia).
  assert (Habs : (Z.abs (round_double z) <? 2 ^ 1024)%Z = false).
  { apply Z.ltb_ge. rewrite Z.abs_eq by lia. lia. }
  rewrite Habs. f_equal. apply Z.ltb_ge. lia.
Qed.

(** [parseInt] of a digit text is the double nearest to its number. *)
Lemma parseInt_number (s : string) :
  s <> "" -> string_forallb is_digit s = true ->
  parseInt_string s = number_of (decimal s 0).
Proof.
  intros Hne Hs. rewrite <- (read_int_decimal s Hs 0).
  destruct s as [|a s]; [congruence|].
  pose proof Hs as Hs'. simpl in Hs'. apply andb_prop in Hs'.
  destruct Hs' as [Ha Hrest].
  assert (Hnum : read_number 10 (String a s) = number_of (read_int 10 (String a s) 0)).
  { unfold read_number, digit_val. rewrite Ha.
    destruct a as [[] [] [] [] [] [] [] []]; try discriminate Ha; reflexivity. }
  assert (Hx : match s with
               | String b _ => is_digit b = true
               | EmptyString => True
               end).
  { destruct s as [|b s]; [exact I|]. simpl in Hrest.
    apply andb_prop in Hrest. tauto. }
  unfold parseInt_string.
  destruct a as [[] [] [] [] [] [] [] []]; try discriminate Ha;
    cbn [skip_space is_space code N_of_ascii N_of_digits N.leb N.eqb N.compare
         Pos.compare Pos.compare_cont andb orb N.add N.mul Pos.add Pos.mul
         Pos.eqb];
    try exact Hnum.
  all: destruct s as [|b s]; [exact Hnum|].
  all: destruct b as [[] [] [] [] [] [] [] []]; try discriminate Hx; exact Hnum.
Qed.

(** Up to fifteen digits, which covers every pattern of the source, the
    number is read exactly. *)
Lemma parseInt_digits (s : string) :
  s <> "" -> string_forallb is_digit s = true -> String.length s <= 15 ->
  parseInt_string s = VNum (decimal s 0).
Proof.
  intros Hne Hs Hl. rewrite (parseInt_number s Hne Hs).
  apply number_of_small. pose proof (decimal_15 s Hs Hl). lia.
Qed.

(** X5: on a text of one or more decimal digits the deserializer of
    [intUnit] gives, applied to [post], the double nearest to the number
    [n] the digits write, which is neither negative nor as much as ten to
    the number of digits.  The result is [n] itself whenever [n] is at most
    2^53, and so for every text of at most fifteen digits, which covers
    the patterns of the source; a longer text may be rounded, and from
    2^1024 on gives [Infinity]. *)
Theorem intUnit_value (regex s : string) (post : value -> value)
  (rest : list (option string)) :
  s <> "" -> string_forallb is_digit s = true ->
  deser (intUnit regex post) (Some s :: rest)
  = Return (post (number_of (decimal s 0)))
  /\ (0 <= decimal s 0 < 10 ^ Z.of_nat (String.length s))%Z
  /\ ((decimal s 0 <= 2 ^ 53)%Z -> number_of (decimal s 0) = VNum (decimal s 0))
  /\ (String.length s <= 15 -> (decimal s 0 <= 2 ^ 53)%Z)
  /\ ((2 ^ 1024 <= decimal s 0)%Z -> number_of (decimal s 0) = VInf false).
Proof.
  intros Hne Hs. pose proof (decimal_bounds s Hs 0) as Hb.
  split; [|split; [|split; [|split]]].
  - unfold intUnit. cbn [deser first parseInt].
    now rewrite (parseInt_number s Hne Hs).
  - lia.
  - intros Hn. apply number_of_small. lia.
  - intros Hl. now apply decimal_15.
  - intros Hn. now apply number_of_large.
Qed.

Lemma intUnit_value_witness :
  deser (intUnit "\d{4}" ident) [Some "2023"] = Return (VNum 2023)
  /\ deser (intUnit "\d+" ident) [Some "9007199254740993"]
     = Return (VNum 9007199254740992)
  /\ deser (intUnit "\d+" ident) [Some "9999999999999999"]
     = Return (VNum 10000000000000000).
Proof.
  split; [|split].
  - destruct (intUnit_value "\d{4}" "2023" ident []) as (H & _ & Hx & Hl & _);
      [discriminate|reflexivity|].
    rewrite H, Hx; [reflexivity|]. apply Hl. simpl. lia.
  - destruct (intUnit_value "\d+" "9007199254740993" ident [])
      as (H & _); [discriminate|reflexivity|].
    rewrite H. vm_compute. reflexivity.
  - destruct (intUnit_value "\d+" "9999999999999999" ident [])
      as (H & _); [discriminate|reflexivity|].
    rewrite H. vm_compute. reflexivity.
Defined.

Lemma oneOf_not_literal (strings : option (list string)) (startIndex : Z) (u : Unit) :
  oneOf strings startIndex = Return (Some u) -> unit_literal u = false.
Proof.
  unfold oneOf. destruct strings as [l|]; [|discriminate].
  destruct (parse _); simpl; [|discriminate].
  intros H. injection H as <-. reflexivity.
Qed.

Lemma literal_is_literal (t : Token) (u : Unit) :
  (do u' <- literal_unit t; Return (Some u')) = Return (Some u) ->
  unit_literal u = true.
Proof.
  unfold literal_unit. destruct (parse _); simpl; [|discriminate].
  intros H. injection H as <-. reflexivity.
Qed.

Ltac in_codes := simpl; repeat (first [left; reflexivity | right]).

(** X6: a unit that is not literal comes from one of the forty-five
    [case] labels of [unitate]: a token that is quoted, or whose code is
    none of them, compiles to a literal unit, so that [match] stores
    nothing for it. *)
Theorem symbolic_units
  (untruncateYear : value -> value)
  (signedOffset : option string -> option string -> value)
  (t : Token) (loc : Locale) (u : Unit) :
  unitate untruncateYear signedOffset t loc = Return (Some u) ->
  unit_literal u = false ->
  literal t = false /\ In (val t) symbolic_codes.
Proof.
  unfold unitate. destruct (literal t).
  - intros H Hl. apply literal_is_literal in H. congruence.
  - intros H Hl. split; [reflexivity|]. revert H.
    repeat match goal with
           | |- context [String.eqb (val t) ?c] =>
               destruct (String.eqb_spec (val t) c) as [->|_];
               [intros _; in_codes|cbn [orb]; cbv iota]
           end.
    intros H. apply literal_is_literal in H. congruence.
Qed.

Lemma symbolic_units_witness :
  literal (mkToken false "yy") = false /\ In "yy" symbolic_codes.
Proof.
  apply (symbolic_units ident Collaborators.signedOffset (mkToken false "yy")
           Collaborators.en (intUnit "\d{2,4}" ident)); reflexivity.
Defined.

(** X7: a code that is none of the [case] labels (three [y], four or
    five [Z], any punctuation) is compiled like the quoted text of the
    same letters: it stands for itself in the input. *)
Theorem unknown_code_is_literal
  (untruncateYear : value -> value)
  (signedOffset : option string -> option string -> value)
  (loc : Locale) (v : string) :
  ~ In v symbolic_codes ->
  unitate untruncateYear signedOffset (mkToken false v) loc
  = unitate untruncateYear signedOffset (mkToken true v) loc.
Proof.
  intros Hv. unfold unitate. cbn [literal val].
  repeat match goal with
         | |- context [String.eqb v ?c] =>
             destruct (String.eqb_spec v c) as [->|_];
             [exfalso; apply Hv; in_codes|cbn [orb]; cbv iota]
         end.
  reflexivity.
Qed.

Lemma unknown_code_is_literal_witness :
  unitate ident Collaborators.signedOffset (mkToken false "ZZZZ") Collaborators.en
  = unitate ident Collaborators.signedOffset (mkToken true "ZZZZ") Collaborators.en.
Proof.
  apply (unknown_code_is_literal ident Collaborators.signedOffset
           Collaborators.en "ZZZZ").
  simpl. intuition discriminate.
Defined.

(** X8: for every code whose pattern is written in the source, the
    number of capture groups of the pattern is the number of extra groups
    the unit declares, so that [match] hands each later unit its own
    groups. *)
Theorem fixed_patterns_aligned
  (untruncateYear : value -> value)
  (signedOffset : option string -> option string -> value)
  (loc : Locale) (v : string) :
  In v fixed_codes ->
  exists unit src tree,
    unitate untruncateYear signedOffset (mkToken false v) loc
    = Return (Some unit)
    /\ regex unit = Some src
    /\ parse src = Return (tree, extra_groups unit).
Proof.
  intros Hin. unfold fixed_codes, int_widths in Hin. simpl in Hin.
  repeat (destruct Hin as [<-|Hin];
          [do 3 eexists; split; [reflexivity|]; split; [reflexivity|];
           reflexivity|]).
  destruct Hin.
Qed.

Lemma fixed_patterns_aligned_witness :
  In "ZZZ" fixed_codes
  /\ exists unit src tree,
       unitate ident Collaborators.signedOffset (mkToken false "ZZZ")
         Collaborators.en = Return (Some unit)
       /\ regex unit = Some src
       /\ parse src = Return (tree, extra_groups unit).
Proof.
  assert (Hin : In "ZZZ" fixed_codes) by (simpl; tauto).
  split; [exact Hin|].
  exact (fixed_patterns_aligned ident Collaborators.signedOffset
           Collaborators.en "ZZZ" Hin).
Defined.

(** ** The enumeration deserializer *)

Lemma to_lower_dot (a : ascii) :
  Ascii.eqb (to_lower a) "." = Ascii.eqb a ".".
Proof. destruct a as [[] [] [] [] [] [] [] []]; reflexivity. Qed.

Lemma toLowerCase_app (s t : string) :
  toLowerCase (s ++ t) = toLowerCase s ++ toLowerCase t.
Proof. induction s as [|a s IH]; simpl; [reflexivity|]. now rewrite IH. Qed.

Lemma toLowerCase_replace (s : string) :
  toLowerCase (replace_first_dot "" s) = replace_first_dot "" (toLowerCase s).
Proof.
  induction s as [|a s IH]; simpl; [reflexivity|].
  rewrite to_lower_dot. destruct (Ascii.eqb a "."); simpl; [reflexivity|].
  now rewrite IH.
Qed.

(** X9: the enumeration deserializer does not see the case of the
    matched text: two texts with the same lower-case form, as
    [toLowerCase] gives it for every cased letter below U+0100, are
    deserialized alike, whatever the candidates. *)
Theorem oneOf_deser_case (strings : list string) (startIndex : Z)
  (s s' : string) (rest rest' : list (option string)) :
  toLowerCase s = toLowerCase s' ->
  oneOf_deser strings startIndex (Some s :: rest)
  = oneOf_deser strings startIndex (Some s' :: rest').
Proof.
  intros H. unfold oneOf_deser. destruct strings as [|x l]; [reflexivity|].
  cbn [first stripInsensitivities_opt bind]. unfold stripInsensitivities.
  now rewrite (toLowerCase_replace s), (toLowerCase_replace s'), H.
Qed.

Lemma oneOf_deser_case_witness :
  stripInsensitivities AOUT = aout
  /\ oneOf_deser ["janv."; aout] 1 [Some AOUT] = Return (VNum 2)
  /\ oneOf_deser ["Jan"; "Feb"] 1 [Some "FEB"]
     = oneOf_deser ["Jan"; "Feb"] 1 [Some "feb"].
Proof.
  split; [reflexivity|]. split.
  - rewrite (oneOf_deser_case ["janv."; aout] 1 AOUT aout [] []); reflexivity.
  - apply (oneOf_deser_case ["Jan"; "Feb"] 1 "FEB" "feb" [] []). reflexivity.
Defined.

Lemma findIndex_first {A : Type} (p : A -> bool) (l : list A) :
  forall (i : nat) (x : A),
    nth_error l i = Some x -> p x = true ->
    (forall j y, j < i -> nth_error l j = Some y -> p y = false) ->
    findIndex p l = Z.of_nat i.
Proof.
  induction l as [|h l IH]; intros i x Hn Hp Hbefore.
  - destruct i; discriminate.
  - destruct i as [|i]; simpl in Hn.
    + injection Hn as ->. simpl. now rewrite Hp.
    + cbn [findIndex]. rewrite (Hbefore 0 h) by (simpl; (lia || reflexivity)).
      rewrite (IH i x Hn Hp).
      * destruct (Z.eqb_spec (Z.of_nat i) (-1)); lia.
      * intros j y Hj Hy. apply (Hbefore (S j) y); [lia|exact Hy].
Qed.

(** X10: the enumeration gives each candidate back its place: when the
    candidates differ pairwise after [stripInsensitivities], the text of
    the candidate at index [i] is deserialized to [i] plus the origin. *)
Theorem oneOf_deser_candidate (strings : list string) (startIndex : Z)
  (i : nat) (c : string) (rest : list (option string)) :
  NoDup (map stripInsensitivities strings) ->
  nth_error strings i = Some c ->
  oneOf_deser strings startIndex (Some c :: rest)
  = Return (VNum (Z.of_nat i + startIndex)).
Proof.
  intros Hnd Hc. unfold oneOf_deser.
  destruct strings as [|x l] eqn:El; [destruct i; discriminate|].
  rewrite <- El in *. cbn [first stripInsensitivities_opt bind].
  rewrite (findIndex_first
             (fun i0 => String.eqb (stripInsensitivities c) (stripInsensitivities i0))
             strings i c Hc (String.eqb_refl _)); [reflexivity|].
  intros j y Hj Hy. apply String.eqb_neq. intros Heq.
  assert (Hji : j = i); [|lia].
  apply (proj1 (NoDup_nth_error (map stripInsensitivities strings)) Hnd).
  - rewrite length_map. apply nth_error_Some. congruence.
  - rewrite !nth_error_map, Hy, Hc. simpl. now rewrite Heq.
Qed.

Lemma oneOf_deser_candidate_witness :
  oneOf_deser ["a.m."; "p.m."] 0 [Some "p.m."] = Return (VNum 1).
Proof.
  apply (oneOf_deser_candidate ["a.m."; "p.m."] 0 1 "p.m." []).
  - repeat constructor; simpl; intuition discriminate.
  - reflexivity.
Defined.

Lemma oneOf_deser_normalized_witness :
  oneOf_deser ["janv."; aout] 1 [Some AOUT] = Return (VNum 2)
  /\ oneOf_deser ["Jan."; "Feb."] 1 [Some "FEB"] = Return (VNum 2).
Proof.
  split.
  - rewrite (oneOf_deser_normalized ["janv."; aout] 1 AOUT []).
    + reflexivity.
    + repeat constructor.
    + simpl. lia.
  - rewrite (oneOf_deser_normalized ["Jan."; "Feb."] 1 "FEB" []).
    + reflexivity.
    + repeat constructor.
    + simpl. lia.
Defined.

(** ** The orchestrator and the assembled pattern *)

Lemma fold_sources (units : list Unit) :
  forall acc : string,
    fold_left
      (fun f r => do f' <- f; do src <- source r;
                  Return (f' ++ "(" ++ src ++ ")"))
      (map regex units) (Return acc)
    = if forallb has_regex units then Return (acc ++ wrapped units)
      else Throw TypeError.
Proof.
  assert (Hthrow : forall l e,
            fold_left
              (fun f r => do f' <- f; do src <- source r;
                          Return (f' ++ "(" ++ src ++ ")"))
              l (@Throw string e) = Throw e).
  { induction l as [|r l IH]; intros e; [reflexivity|]. simpl. apply IH. }
  induction units as [|u units IH]; intros acc.
  - simpl. now rewrite append_empty.
  - cbn [map fold_left forallb wrapped]. unfold has_regex at 1.
    destruct (regex u) as [src|]; cbn [bind source andb].
    + rewrite IH. destruct (forallb has_regex units); [|reflexivity].
      f_equal. rewrite append_tail. f_equal.
      change ("(" ++ src ++ ")") with (String "(" (src ++ ")")).
      change ("(" ++ src ++ ")" ++ wrapped units)
        with (String "(" (src ++ ")" ++ wrapped units)).
      cbn [append]. f_equal. apply append_tail.
    + apply Hthrow.
Qed.

(** X11: [buildRegex] gives the units back with one anchored pattern,
    the sources in their order, each in a group of its own, between [^]
    and [$]; it throws a [TypeError] when, and only when, a unit has no
    [regex]. *)
Theorem buildRegex_anchored (units : list Unit) :
  buildRegex units
  = if forallb has_regex units
    then Return ("^" ++ wrapped units ++ "$", units)
    else Throw TypeError.
Proof.
  unfold buildRegex. rewrite fold_sources.
  now destruct (forallb has_regex units).
Qed.

Section Compiled.

Variable untruncateYear : value -> value.
Variable signedOffset : option string -> option string -> value.

Lemma oneOf_regex (strings : option (list string)) (startIndex : Z) (u : Unit) :
  oneOf strings startIndex = Return (Some u) -> has_regex u = true.
Proof.
  unfold oneOf. destruct strings as [l|]; [|discriminate].
  destruct (parse _); simpl; [|discriminate].
  intros H. injection H as <-. reflexivity.
Qed.

Lemma literal_regex (t : Token) (u : Unit) :
  (do u' <- literal_unit t; Return (Some u')) = Return (Some u) ->
  has_regex u = true.
Proof.
  unfold literal_unit. destruct (parse _); simpl; [|discriminate].
  intros H. injection H as <-. reflexivity.
Qed.

Lemma unitate_regex (t : Token) (loc : Locale) (u : Unit) :
  unitate untruncateYear signedOffset t loc = Return (Some u) ->
  has_regex u = true.
Proof.
  unfold unitate. destruct (literal t); [apply literal_regex|].
  repeat match goal with
         | |- context [String.eqb ?v ?c] => destruct (String.eqb v c); simpl orb; cbv iota
         end;
    first [ apply oneOf_regex | apply literal_regex
          | intros H; injection H as <-; reflexivity ].
Qed.

Lemma compile_units_reason (loc : Locale) (tokens : list Token) :
  forall (units : list Unit) (r : string),
    compile_units untruncateYear signedOffset tokens loc units = Return (inl r) ->
    r = MISSING_FTP.
Proof.
  induction tokens as [|t tokens IH]; intros units r; simpl; [discriminate|].
  unfold unitForToken.
  destruct (unitate untruncateYear signedOffset t loc) as [[u|]|e] eqn:E;
    cbn [bind]; [| |discriminate].
  - unfold reason_of, with_token. cbn [invalidReason].
    rewrite (unitate_valid untruncateYear signedOffset t loc u E). apply IH.
  - cbn. intros H. now injection H as <-.
Qed.

Lemma compile_units_spec (loc : Locale) (tokens : list Token) :
  forall units0 units : list Unit,
    compile_units untruncateYear signedOffset tokens loc units0
    = Return (inr units) ->
    exists new,
      units = (units0 ++ new)%list
      /\ map token new = map Some tokens
      /\ forallb has_regex new = true
      /\ Forall (fun u => invalidReason u = None) new.
Proof.
  induction tokens as [|t tokens IH]; intros units0 units; simpl.
  - intros H. injection H as <-. exists []. rewrite app_nil_r. repeat split.
    constructor.
  - unfold unitForToken.
    destruct (unitate untruncateYear signedOffset t loc) as [[u|]|e] eqn:E;
      cbn [bind]; [| |discriminate].
    + unfold reason_of. cbn [with_token invalidReason].
      rewrite (unitate_valid untruncateYear signedOffset t loc u E).
      intros H. destruct (IH _ _ H) as (new & -> & Htok & Hre & Hinv).
      exists (with_token u t :: new). rewrite <- app_assoc. simpl.
      split; [reflexivity|]. split; [now rewrite Htok|]. split.
      * unfold has_regex at 1. cbn [with_token regex].
        pose proof (unitate_regex t loc u E) as Hu. unfold has_regex in Hu.
        now rewrite Hre, andb_true_r.
      * constructor; [|exact Hinv].
        apply (unitate_valid untruncateYear signedOffset t loc u E).
    + cbn. discriminate.
Qed.

End Compiled.

(** X12: when the loop of [explainFromTokens] runs to its end, it has one
    unit per token, in the order of the tokens and each owning its token,
    every unit with a [regex] and without a reason; so [buildRegex] does
    not throw on them. *)
Theorem compiled_units
  (untruncateYear : value -> value)
  (signedOffset : option string -> option string -> value)
  (loc : Locale) (tokens : list Token) (units : list Unit) :
  compile_units untruncateYear signedOffset tokens loc [] = Return (inr units) ->
  map token units = map Some tokens
  /\ Forall (fun u => has_regex u = true /\ invalidReason u = None) units
  /\ buildRegex units = Return ("^" ++ wrapped units ++ "$", units).
Proof.
  intros H.
  destruct (compile_units_spec untruncateYear signedOffset loc tokens [] units H)
    as (new & -> & Htok & Hre & Hinv).
  simpl. split; [exact Htok|]. split.
  - rewrite forallb_forall in Hre. rewrite Forall_forall in *.
    intros u Hu. split; [now apply Hre|now apply Hinv].
  - unfold buildRegex. rewrite fold_sources, Hre. reflexivity.
Qed.

Lemma compiled_units_witness :
  let units := [ with_token (intUnit "\d{1,2}" ident) (mkToken false "h");
                 with_token (intUnit "\d{2}" ident) (mkToken false "mm") ] in
  map token units = [Some (mkToken false "h"); Some (mkToken false "mm")]
  /\ Forall (fun u => has_regex u = true /\ invalidReason u = None) units
  /\ buildRegex units = Return ("^(\d{1,2})(\d{2})$", units).
Proof.
  intros units.
  apply (compiled_units ident Collaborators.signedOffset Collaborators.en
           [mkToken false "h"; mkToken false "mm"] units).
  reflexivity.
Defined.

(** X13: what [parseFromTokens] returns is of one of two shapes: the
    reason of the missing [formatToParts] support with an undefined
    result and zone; or no reason, a result that is an object, and a zone
    that may be [null].  The result is never [null] nor undefined without
    a reason, also when the input does not match. *)
Theorem parseFromTokens_shape
  (untruncateYear : value -> value)
  (signedOffset : option string -> option string -> value)
  (parseMillis : value -> value)
  (parseFormat : string -> list Token)
  (locale : Locale) (input format : string)
  (result : property obj) (zone : property Zone) (reason : property string) :
  parseFromTokens untruncateYear signedOffset parseMillis parseFormat
    locale input format = Return (result, zone, reason) ->
  (reason = Value MISSING_FTP /\ result = Undefined /\ zone = Undefined)
  \/ (reason = Undefined /\ (exists fields, result = Value fields)
      /\ zone <> Undefined).
Proof.
  unfold parseFromTokens, explainFromTokens.
  destruct (compile_units untruncateYear signedOffset (parseFormat format)
              locale []) as [[r|units]|e] eqn:E; cbn [bind]; [| |discriminate].
  - intros H. injection H as <- <- <-. left.
    now rewrite (compile_units_reason untruncateYear signedOffset locale
                   (parseFormat format) [] r E).
  - destruct (buildRegex units) as [[re hs]|e]; cbn [bind]; [|discriminate].
    destruct (compile re true) as [rx|e]; cbn [bind]; [|discriminate].
    destruct (match_ input rx hs) as [[raw m]|e]; cbn [bind]; [|discriminate].
    unfold truthy_obj.
    destruct (dateTimeFromMatches parseMillis m) as [[vals z] after].
    intros H. injection H as <- <- <-. right.
    split; [reflexivity|]. split; [now exists vals|].
    destruct z; discriminate.
Qed.

Lemma parseFromTokens_shape_witness :
  parseFromTokens ident Collaborators.signedOffset Collaborators.parseMillis
    Collaborators.parseFormat Collaborators.en "next year" "yyyy"
  = Return (Value [], Null, Undefined)
  /\ ((@Undefined string = Value MISSING_FTP
       /\ Value (@nil (string * value)) = Undefined /\ @Null Zone = Undefined)
      \/ (@Undefined string = Undefined
          /\ (exists fields, Value (@nil (string * value)) = Value fields)
          /\ @Null Zone <> Undefined)).
Proof.
  assert (H : parseFromTokens ident Collaborators.signedOffset
                Collaborators.parseMillis Collaborators.parseFormat
                Collaborators.en "next year" "yyyy"
              = Return (Value [], Null, Undefined))
    by (vm_compute; reflexivity).
  split; [exact H|].
  exact (parseFromTokens_shape ident Collaborators.signedOffset
           Collaborators.parseMillis Collaborators.parseFormat
           Collaborators.en "next year" "yyyy" _ _ _ H).
Defined.

Lemma unsupported_token_invalid_witness :
  Collaborators.explain Collaborators.bare "4 Mon" "d EEE"
  = Return (Invalid "4 Mon"
              [mkToken false "d"; mkToken false " "; mkToken false "EEE"]
              MISSING_FTP).
Proof.
  apply (unsupported_token_invalid ident Collaborators.signedOffset
           Collaborators.parseMillis Collaborators.parseFormat
           Collaborators.bare "4 Mon" "d EEE"
           [mkToken false "d"; mkToken false " "] [] (mkToken false "EEE")).
  - reflexivity.
  - repeat constructor; eexists; reflexivity.
  - reflexivity.
Defined.

Lemma plain_literal_witness :
  Collaborators.explain Collaborators.en "at" "'at'"
  = Return (Explained "at" [mkToken true "at"] "^(at)$"
              (Some [Some "at"; Some "at"]) [] (Some []) None).
Proof.
  apply (plain_literal ident Collaborators.signedOffset
           Collaborators.parseMillis Collaborators.parseFormat
           Collaborators.en "'at'" "at"); [reflexivity|discriminate|reflexivity].
Defined.

(** ** Enumerations of plain names *)

Lemma in_all_ascii (a : ascii) : In a all_ascii.
Proof.
  unfold all_ascii. rewrite <- (ascii_nat_embedding a).
  apply in_map, in_seq. pose proof (nat_ascii_bounded a). lia.
Qed.

(** Under the [i] flag a character of a pattern matches the characters
    with its lower-case form. *)
Lemma set_mem_char (a b : ascii) :
  set_mem true false [CRange a a] b = Ascii.eqb (to_lower a) (to_lower b).
Proof.
  assert (H : forallb
                (fun a => forallb
                            (fun b => Bool.eqb (set_mem true false [CRange a a] b)
                                        (Ascii.eqb (to_lower a) (to_lower b)))
                            all_ascii) all_ascii = true)
    by (vm_compute; reflexivity).
  rewrite forallb_forall in H. specialize (H a (in_all_ascii a)).
  rewrite forallb_forall in H. specialize (H b (in_all_ascii b)).
  now apply Bool.eqb_prop.
Qed.

(** The characters with the canonical form of [b] are [b], [to_upper b]
    and [to_lower b]. *)
Lemma canonical_class (a b : ascii) :
  Ascii.eqb (to_upper a) (to_upper b)
  = (Ascii.eqb a b || Ascii.eqb a (to_upper b) || Ascii.eqb a (to_lower b))%bool.
Proof.
  assert (H : forallb
                (fun a => forallb
                            (fun b => Bool.eqb
                                        (Ascii.eqb (to_upper a) (to_upper b))
                                        (Ascii.eqb a b || Ascii.eqb a (to_upper b)
                                         || Ascii.eqb a (to_lower b)))
                            all_ascii) all_ascii = true)
    by (vm_compute; reflexivity).
  rewrite forallb_forall in H. specialize (H a (in_all_ascii a)).
  rewrite forallb_forall in H. specialize (H b (in_all_ascii b)).
  now apply Bool.eqb_prop.
Qed.

(** So [item_mem] decides what the standard asks of a range under the [i]
    flag: that some member of the range has the canonical form of the
    character. *)
Lemma item_mem_canonical (lo hi b : ascii) :
  item_mem true (CRange lo hi) b
  = existsb (fun a => (in_range lo hi a
                       && Ascii.eqb (to_upper a) (to_upper b))%bool) all_ascii.
Proof.
  apply Bool.eq_true_iff_eq. cbn [item_mem andb]. rewrite existsb_exists. split.
  - intros H. apply orb_prop in H. destruct H as [H|H];
      [|apply orb_prop in H; destruct H as [H|H]].
    + exists b. split; [apply in_all_ascii|]. now rewrite H, Ascii.eqb_refl.
    + exists (to_upper b). split; [apply in_all_ascii|].
      rewrite H, canonical_class, Ascii.eqb_refl. simpl. now rewrite orb_true_r.
    + exists (to_lower b). split; [apply in_all_ascii|].
      rewrite H, canonical_class, Ascii.eqb_refl. simpl. now rewrite !orb_true_r.
  - intros (a & _ & H). apply andb_prop in H. destruct H as [Hr Hc].
    rewrite canonical_class in Hc.
    apply orb_prop in Hc. destruct Hc as [Hc|Hc];
      [apply orb_prop in Hc; destruct Hc as [Hc|Hc]|];
      apply Ascii.eqb_eq in Hc; subst a; rewrite Hr; simpl;
      now rewrite ?orb_true_r.
Qed.

Lemma m_chars_end (c : string) (k : cont) :
  at_end_only k ->
  forall (s : string) (i : nat) (cs : caps),
    m true (chars_tree c) i s cs k
    = if String.eqb (toLowerCase c) (toLowerCase s)
      then k (i + String.length s) EmptyString cs
      else None.
Proof.
  intros Hk. induction c as [|a c IH]; intros s i cs.
  - destruct s as [|b s]; simpl; [now rewrite Nat.add_0_r|apply Hk].
  - destruct s as [|b s]; [reflexivity|].
    cbn [chars_tree]. rewrite m_seq. unfold rchar at 1. cbn [m].
    rewrite set_mem_char. cbn [toLowerCase String.eqb String.length].
    destruct (Ascii.eqb (to_lower a) (to_lower b)); [|reflexivity].
    rewrite IH. replace (S i + String.length s) with (i + S (String.length s)) by lia.
    reflexivity.
Qed.

Lemma m_alts_end (k : cont) :
  at_end_only k ->
  forall (l : list string) (s : string) (i : nat) (cs : caps),
    l <> [] ->
    m true (alts_tree l) i s cs k
    = if existsb (fun c => String.eqb (toLowerCase c) (toLowerCase s)) l
      then k (i + String.length s) EmptyString cs
      else None.
Proof.
  intros Hk. induction l as [|x l IH]; intros s i cs Hne; [congruence|].
  destruct l as [|y l].
  - cbn [alts_tree existsb]. rewrite (m_chars_end x k Hk), orb_false_r. reflexivity.
  - change (alts_tree (x :: y :: l)) with (RAlt (chars_tree x) (alts_tree (y :: l))).
    cbn [m]. rewrite (m_chars_end x k Hk), IH by discriminate.
    cbn [existsb].
    destruct (String.eqb (toLowerCase x) (toLowerCase s)); cbn [orb]; [|reflexivity].
    destruct (k (i + String.length s) "" cs); [reflexivity|].
    now destruct (_ || _)%bool.
Qed.

Lemma exec_alts (l : list string) (s : string) :
  l <> [] ->
  exec (mkRegexp (RSeq RBol (RSeq (RGroup 0 (alts_tree l)) (RSeq REol REmpty)))
          1 true) s
  = if existsb (fun c => String.eqb (toLowerCase c) (toLowerCase s)) l
    then Some [Some s; Some s] else None.
Proof.
  intros Hne. erewrite exec_anchored by (simpl; reflexivity).
  unfold match_at. cbn [tree ignoreCase ngroups repeat].
  rewrite m_seq, m_bol, m_seq, m_group.
  rewrite m_alts_end; [|intros i a t c; reflexivity|exact Hne].
  destruct (existsb _ l); [|reflexivity].
  simpl. now rewrite Nat.sub_0_r, substring_all.
Qed.

Lemma parse_quant_ends (tail : string) :
  ends_alternative tail = true -> parse_quant tail = None.
Proof.
  destruct tail as [|c t]; [reflexivity|]. simpl. intros H.
  apply orb_prop in H. destruct H as [H|H]; apply Ascii.eqb_eq in H; now subst.
Qed.

Lemma parse_alt_ends (f : nat) (tail : string) (g : nat) :
  ends_alternative tail = true -> parse_alt (S f) tail g = Return (REmpty, tail, g).
Proof.
  destruct tail as [|c t]; [reflexivity|]. simpl ends_alternative. intros H.
  apply orb_prop in H. destruct H as [H|H]; apply Ascii.eqb_eq in H; now subst.
Qed.

Lemma parse_alt_name (tail : string) :
  ends_alternative tail = true ->
  forall (s : string) (f g : nat),
    plain_text s = true -> String.length s < f ->
    parse_alt (S f) (s ++ tail) g = Return (chars_tree s, tail, g).
Proof.
  intros Htail. induction s as [|c s IH]; intros f g Hs Hf.
  - now apply parse_alt_ends.
  - simpl in Hs. apply andb_prop in Hs. destruct Hs as [Hc Hs].
    apply negb_true_iff in Hc. simpl in Hf.
    destruct f as [|f]; [lia|].
    change (String c s ++ tail) with (String c (s ++ tail)).
    rewrite (parse_alt_step (S f) c (s ++ tail) g Hc).
    rewrite (parse_term_plain f c (s ++ tail) g Hc).
    + cbn [bind]. rewrite (IH f g Hs) by lia. reflexivity.
    + destruct s as [|c' s']; [now apply parse_quant_ends|].
      simpl in Hs. apply andb_prop in Hs. destruct Hs as [Hc' _].
      apply negb_true_iff in Hc'. now apply parse_quant_plain.
Qed.

Lemma plain_names_cons (x : string) (l : list string) :
  plain_names (x :: l) = true ->
  plain_text x = true /\ x <> "" /\ plain_names l = true.
Proof.
  unfold plain_names. simpl. intros H.
  apply andb_prop in H. destruct H as [H Hl].
  apply andb_prop in H. destruct H as [Hx Hne].
  repeat split; [exact Hx| |exact Hl].
  intros ->. discriminate.
Qed.

Lemma join_cons (x y : string) (l : list string) :
  join "|" (x :: y :: l) = x ++ "|" ++ join "|" (y :: l).
Proof. reflexivity. Qed.

(** The alternation of plain names parses to the alternatives in their
    order. *)
Lemma parse_disj_names (tail : string) :
  closes tail = true ->
  forall (l : list string) (f g : nat),
    l <> [] -> plain_names l = true ->
    String.length (join "|" l) + 2 < f ->
    parse_disj f (join "|" l ++ tail) g = Return (alts_tree l, tail, g).
Proof.
  intros Htail.
  assert (Hends : ends_alternative tail = true).
  { destruct tail as [|c t]; [reflexivity|]. simpl in *. now rewrite Htail. }
  induction l as [|x l IH]; intros f g Hne Hl Hf; [congruence|].
  apply plain_names_cons in Hl. destruct Hl as (Hx & Hxne & Hl).
  destruct f as [|f]; [lia|]. rewrite parse_disj_S.
  destruct l as [|y l].
  - cbn [join] in *. destruct f as [|f]; [lia|].
    rewrite (parse_alt_name tail Hends x f g Hx) by lia. cbn [bind].
    destruct tail as [|c t]; [reflexivity|]. simpl in Htail.
    apply Ascii.eqb_eq in Htail. now subst.
  - rewrite join_cons in *. rewrite !length_append in Hf. cbn [String.length] in Hf.
    rewrite append_tail. destruct f as [|f]; [lia|].
    change (("|" ++ join "|" (y :: l)) ++ tail)
      with (String "|" (join "|" (y :: l) ++ tail)).
    rewrite (parse_alt_name (String "|" (join "|" (y :: l) ++ tail)) eq_refl
               x f g Hx) by lia.
    cbn [bind].
    rewrite (IH (S f) g) by (try discriminate; try exact Hl; lia).
    reflexivity.
Qed.

Lemma plain_no_period (c : ascii) :
  syntax_char c = false -> Ascii.eqb c "." = false.
Proof.
  intros H. destruct (Ascii.eqb_spec c ".") as [->|]; [discriminate H|reflexivity].
Qed.

Lemma plain_periods (s : string) : plain_text s = true -> periods s = 0.
Proof.
  induction s as [|c s IH]; [reflexivity|]. simpl. intros H.
  apply andb_prop in H. destruct H as [Hc Hs]. apply negb_true_iff in Hc.
  now rewrite (plain_no_period c Hc), (IH Hs).
Qed.

Lemma replace_first_dot_none (by_ s : string) :
  periods s = 0 -> replace_first_dot by_ s = s.
Proof.
  induction s as [|c s IH]; [reflexivity|]. simpl.
  destruct (Ascii.eqb c "."); [discriminate|]. simpl. intros H. now rewrite IH.
Qed.

Lemma periods_lower (s : string) : periods (toLowerCase s) = periods s.
Proof.
  induction s as [|c s IH]; [reflexivity|]. simpl. now rewrite to_lower_dot, IH.
Qed.

Lemma fix_plain_names (l : list string) :
  plain_names l = true -> map fixListRegex l = l.
Proof.
  induction l as [|x l IH]; [reflexivity|]. intros H.
  apply plain_names_cons in H. destruct H as (Hx & _ & Hl). simpl.
  unfold fixListRegex at 1.
  now rewrite (replace_first_dot_none _ x (plain_periods x Hx)), (IH Hl).
Qed.

Lemma plain_not_escaped (c : ascii) :
  syntax_char c = false -> escaped_char c = false.
Proof.
  intros H. destruct c as [[] [] [] [] [] [] [] []]; try discriminate H; reflexivity.
Qed.

Lemma escape_source_safe (s : string) :
  string_forallb (fun c => negb (escaped_char c)) s = true ->
  escape_source false s = s.
Proof.
  induction s as [|c s IH]; [reflexivity|]. simpl. intros H.
  apply andb_prop in H. destruct H as [Hc Hs]. apply negb_true_iff in Hc.
  specialize (IH Hs).
  destruct c as [[] [] [] [] [] [] [] []]; try discriminate Hc;
    cbn; now rewrite IH.
Qed.

Lemma string_forallb_app (p : ascii -> bool) (s t : string) :
  string_forallb p (s ++ t) = (string_forallb p s && string_forallb p t)%bool.
Proof.
  induction s as [|c s IH]; simpl; [reflexivity|].
  now rewrite IH, andb_assoc.
Qed.

Lemma plain_unescaped (s : string) :
  plain_text s = true ->
  string_forallb (fun c => negb (escaped_char c)) s = true.
Proof.
  induction s as [|c s IH]; [reflexivity|]. simpl. intros H.
  apply andb_prop in H. destruct H as [Hc Hs]. apply negb_true_iff in Hc.
  now rewrite (plain_not_escaped c Hc), (IH Hs).
Qed.

Lemma join_unescaped (l : list string) :
  plain_names l = true ->
  string_forallb (fun c => negb (escaped_char c)) (join "|" l) = true.
Proof.
  induction l as [|x l IH]; [reflexivity|]. intros H.
  apply plain_names_cons in H. destruct H as (Hx & _ & Hl).
  destruct l as [|y l]; [now apply plain_unescaped|].
  rewrite join_cons, !string_forallb_app, (plain_unescaped x Hx), (IH Hl).
  reflexivity.
Qed.

Lemma join_not_empty (l : list string) :
  l <> [] -> plain_names l = true -> join "|" l <> "".
Proof.
  destruct l as [|x l]; [congruence|]. intros _ H.
  apply plain_names_cons in H. destruct H as (_ & Hx & _).
  destruct l as [|y l]; [exact Hx|]. rewrite join_cons.
  destruct x; [congruence|discriminate].
Qed.

Lemma parse_names (l : list string) :
  l <> [] -> plain_names l = true ->
  parse (join "|" l) = Return (alts_tree l, 0).
Proof.
  intros Hne Hl. unfold parse.
  rewrite <- (append_empty (join "|" l)) at 2.
  rewrite (parse_disj_names "" eq_refl l _ 0 Hne Hl) by lia. reflexivity.
Qed.

Lemma names_not_question (l : list string) (tail : string) :
  l <> [] -> plain_names l = true ->
  forall t, join "|" l ++ tail <> String "?" t.
Proof.
  destruct l as [|x l]; [congruence|]. intros _ H t.
  apply plain_names_cons in H. destruct H as (Hx & Hxne & _).
  destruct x as [|c x]; [congruence|].
  simpl in Hx. apply andb_prop in Hx. destruct Hx as [Hc _].
  destruct l as [|y l]; [cbn [join]|rewrite join_cons];
    simpl; intros E; injection E as -> _; discriminate.
Qed.

Lemma parse_wrapped_names (l : list string) :
  l <> [] -> plain_names l = true ->
  parse ("^" ++ ("" ++ "(" ++ join "|" l ++ ")") ++ "$")
  = Return (RSeq RBol (RSeq (RGroup 0 (alts_tree l)) (RSeq REol REmpty)), 1).
Proof.
  intros Hne Hl.
  change ("^" ++ ("" ++ "(" ++ join "|" l ++ ")") ++ "$")
    with (String "^" (String "(" ((join "|" l ++ ")") ++ "$"))).
  rewrite append_tail. change (")" ++ "$") with ")$".
  unfold parse. cbn [String.length]. rewrite length_append. cbn [String.length].
  replace (3 * S (S (String.length (join "|" l) + 2)) + 4)
    with (S (S (S (S (S (3 * String.length (join "|" l) + 11)))))) by lia.
  assert (Hf : String.length (join "|" l) + 2
               < S (3 * String.length (join "|" l) + 11)) by lia.
  revert Hf. generalize (3 * String.length (join "|" l) + 11). intros f Hf.
  rewrite parse_disj_S, parse_alt_bol by reflexivity.
  rewrite parse_alt_open.
  rewrite parse_term_group by now apply names_not_question.
  rewrite (parse_disj_names ")$" eq_refl l (S f) 1 Hne Hl Hf).
  reflexivity.
Qed.

Lemma names_periods (l : list string) (s : string) :
  plain_names l = true -> names l s = true -> periods s = 0.
Proof.
  intros Hl Hs. unfold names in Hs. apply existsb_exists in Hs.
  destruct Hs as (c & Hc & Heq). apply String.eqb_eq in Heq.
  rewrite <- periods_lower, Heq, periods_lower. apply plain_periods.
  unfold plain_names in Hl. rewrite forallb_forall in Hl.
  specialize (Hl c Hc). apply andb_prop in Hl. tauto.
Qed.

(** X17: for candidates without pattern syntax, the unit of [oneOf]
    accepts exactly the texts that are one of the candidates but for the
    case of the letters (those of the Latin-1 Supplement as well as the
    basic ones), and deserializes such a text to the position of the first
    candidate it is, plus the origin. *)
Theorem enumeration_of_plain_names (l : list string) (startIndex : Z) :
  l <> [] -> plain_names l = true ->
  exists unit,
    oneOf (Some l) startIndex = Return (Some unit)
    /\ forall s,
         captures unit s = (if names l s then Some [Some s; Some s] else None)
         /\ (names l s = true ->
             forall rest,
               deser unit (Some s :: rest)
               = Return (VNum (findIndex
                                 (fun c => String.eqb (toLowerCase s) (toLowerCase c))
                                 l + startIndex))).
Proof.
  intros Hne Hl.
  exists (mkUnit (Some (join "|" l)) (oneOf_deser l startIndex) None false None None).
  split.
  - unfold oneOf. rewrite (fix_plain_names l Hl), (parse_names l Hne Hl).
    cbn [bind]. unfold source_of.
    destruct (join "|" l) eqn:E; [now apply join_not_empty in E|].
    rewrite <- E. now rewrite (escape_source_safe _ (join_unescaped l Hl)).
  - intros s. split.
    + unfold captures, buildRegex. cbn [map fold_left bind regex source].
      unfold compile. rewrite (parse_wrapped_names l Hne Hl). cbn [bind].
      rewrite (exec_alts l s Hne). unfold names.
      assert (Hsym : existsb (fun c => String.eqb (toLowerCase c) (toLowerCase s)) l
                     = existsb (fun c => String.eqb (toLowerCase s) (toLowerCase c)) l).
      { clear. induction l as [|x l IH]; [reflexivity|]. simpl.
        now rewrite IH, String.eqb_sym. }
      now rewrite Hsym.
    + intros Hs rest. cbn [deser]. unfold oneOf_deser.
      destruct l as [|x l'] eqn:El; [congruence|]. rewrite <- El in *.
      cbn [first stripInsensitivities_opt bind]. do 3 f_equal.
      unfold stripInsensitivities at 1.
      rewrite (replace_first_dot_none "" s (names_periods l s Hl Hs)).
      apply findIndex_ext. unfold plain_names in Hl. rewrite forallb_forall in Hl.
      apply Forall_forall. intros c Hc. specialize (Hl c Hc).
      apply andb_prop in Hl. destruct Hl as [Hp _]. unfold stripInsensitivities.
      now rewrite (replace_first_dot_none "" c (plain_periods c Hp)).
Qed.

Lemma enumeration_of_plain_names_witness :
  exists unit,
    oneOf (Some ["juil"; aout; "sept"]) 7 = Return (Some unit)
    /\ captures unit AOUT = Some [Some AOUT; Some AOUT]
    /\ captures unit "SEPT" = Some [Some "SEPT"; Some "SEPT"]
    /\ captures unit "aout" = None
    /\ deser unit [Some AOUT] = Return (VNum 8).
Proof.
  destruct (enumeration_of_plain_names ["juil"; aout; "sept"] 7)
    as (unit & Hu & Hs); [discriminate|reflexivity|].
  exists unit. split; [exact Hu|].
  destruct (Hs AOUT) as [Hc Hd]. destruct (Hs "SEPT") as [Hc1 _].
  destruct (Hs "aout") as [Hc2 _].
  split; [exact Hc|]. split; [exact Hc1|]. split; [exact Hc2|].
  rewrite (Hd eq_refl []). reflexivity.
Defined.

(** ** A format of one integer token *)

Lemma resolve_single (parseMillis : value -> value) (k f : string) (n : Z) :
  In k integer_keys -> toField k = Some f ->
  dateTimeFromMatches parseMillis [(k, VNum n)]
  = ([(f, VNum n)], None, [(k, VNum n)]).
Proof.
  intros Hk Hf. unfold integer_keys in Hk. simpl in Hk.
  repeat (destruct Hk as [<-|Hk];
          [vm_compute in Hf; injection Hf as <-;
           unfold dateTimeFromMatches, adjust_millis, adjust_era, adjust_hour,
             zone_of, collect;
           cbn; rewrite ?andb_false_r; reflexivity|]).
  destruct Hk.
Qed.

Lemma explain_single_int
  (untruncateYear : value -> value)
  (signedOffset : option string -> option string -> value)
  (parseMillis : value -> value)
  (parseFormat : string -> list Token)
  (locale : Locale) (input format v src : string) (rx : regexp) (lo hi : nat)
  (f : string) :
  parseFormat format = [mkToken false v] ->
  unitate untruncateYear signedOffset (mkToken false v) locale
  = Return (Some (intUnit src ident)) ->
  compile ("^" ++ ("" ++ "(" ++ src ++ ")") ++ "$") true = Return rx ->
  (forall s, exec rx s = if digit_run lo hi s then Some [Some s; Some s] else None) ->
  1 <= lo -> hi <= 15 ->
  In (key_of (mkToken false v)) integer_keys ->
  toField (key_of (mkToken false v)) = Some f ->
  explainFromTokens untruncateYear signedOffset parseMillis parseFormat
    locale input format
  = Return
      (Explained input [mkToken false v]
         ("^" ++ ("" ++ "(" ++ src ++ ")") ++ "$")
         (if digit_run lo hi input then Some [Some input; Some input] else None)
         (if digit_run lo hi input
          then [(key_of (mkToken false v), VNum (decimal input 0))] else [])
         (Some (if digit_run lo hi input
                then [(f, VNum (decimal input 0))] else []))
         None).
Proof.
  intros Htok Hu Hc Hexec Hlo Hhi Hk Hf. unfold explainFromTokens. rewrite Htok.
  cbn [compile_units]. unfold unitForToken. rewrite Hu.
  cbn [bind with_token reason_of invalidReason regex deser groups unit_literal
       compile_units app intUnit].
  unfold buildRegex, with_token, intUnit.
  cbn [map fold_left bind regex source deser groups unit_literal invalidReason].
  rewrite Hc.
  cbn [bind]. unfold match_. rewrite Hexec.
  destruct (digit_run lo hi input) eqn:E; [|reflexivity].
  assert (Hd : string_forallb is_digit input = true /\ input <> ""
               /\ String.length input <= 15).
  { unfold digit_run in E. apply andb_prop in E. destruct E as [E E3].
    apply andb_prop in E. destruct E as [E1 E2]. split; [exact E1|].
    apply Nat.leb_le in E2. apply Nat.leb_le in E3. split; [|lia].
    intros ->. simpl in E2. lia. }
  destruct Hd as (Hd & Hne & Hlen).
  cbn [match_loop unit_literal token bind deser group_span groups slice
       Nat.add Nat.sub skipn firstn first parseInt].
  rewrite (parseInt_digits input Hne Hd Hlen). unfold ident. cbn [bind set].
  unfold truthy_obj. rewrite (resolve_single parseMillis _ f _ Hk Hf).
  reflexivity.
Qed.

(** X18: a format of one integer token other than [yy], [kk] and [u],
    on any input: when the input is a run of digits of a length the
    pattern allows, the raw field map holds the number under the token's
    first letter and the result holds it under the calendar field, with a
    null zone; on any other input there is no match and both are empty. *)
Theorem single_integer_token
  (untruncateYear : value -> value)
  (signedOffset : option string -> option string -> value)
  (parseMillis : value -> value)
  (parseFormat : string -> list Token)
  (locale : Locale) (input format v : string) (lo hi : nat) :
  In (v, (lo, hi)) int_widths ->
  v <> "yy" -> v <> "kk" -> v <> "u" ->
  parseFormat format = [mkToken false v] ->
  exists regexString field,
    toField (key_of (mkToken false v)) = Some field
    /\ explainFromTokens untruncateYear signedOffset parseMillis parseFormat
         locale input format
       = Return
           (Explained input [mkToken false v] regexString
              (if digit_run lo hi input
               then Some [Some input; Some input] else None)
              (if digit_run lo hi input
               then [(key_of (mkToken false v), VNum (decimal input 0))] else [])
              (Some (if digit_run lo hi input
                     then [(field, VNum (decimal input 0))] else []))
              None).
Proof.
  intros Hin Hyy Hkk Hu Htok. unfold int_widths in Hin. simpl in Hin.
  repeat (destruct Hin as [Hin|Hin];
          [injection Hin as <- <- <-;
           first
             [ exfalso; first [now apply Hyy | now apply Hkk | now apply Hu]
             | do 2 eexists; split; [reflexivity|];
               eapply explain_single_int;
               [ exact Htok | reflexivity | vm_compute; reflexivity
               | intros s; first [apply digits_match; lia | apply digit_match]
               | lia | lia | in_codes | reflexivity ] ]
          |]).
  destruct Hin.
Qed.

Lemma single_integer_token_witness :
  exists regexString field,
    toField "y" = Some field
    /\ Collaborators.explain Collaborators.en "2023" "yyyy"
       = Return (Explained "2023" [mkToken false "yyyy"] regexString
                   (Some [Some "2023"; Some "2023"]) [("y", VNum 2023)]
                   (Some [(field, VNum 2023)]) None).
Proof.
  apply (single_integer_token ident Collaborators.signedOffset
           Collaborators.parseMillis Collaborators.parseFormat
           Collaborators.en "2023" "yyyy" "yyyy" 4 4);
    [simpl; tauto|discriminate|discriminate|discriminate|reflexivity].
Defined.
